(** * The Uniswap V2 connector of the gateway (connectors/uniswap/uniswap.ts)

    A shallow embedding of the class [Uniswap]: its instance registry, pool
    initialisation, the two quote operations, trade execution and the route
    description, with the statements of its specification proved against it.

    Conventions.
    - A JavaScript [string] is a [string]; a [number] is a binary64 [float];
      a [BigNumber] is a [Z]; an optional parameter or field is an [option]
      ([None] is [undefined] or [null]).
    - The collaborators the class calls but does not define (the Ethereum
      service, the JSON-RPC provider behind ethers contracts, @uniswap/sdk,
      the configuration, the logger) are records of functions. An awaited
      call that goes to the chain may reject, and a constructor or function
      of the SDK may throw (its invariants), so both return an [outcome].
      The nonce manager is modelled from its description in the
      specification.
    - A method is a computation in the monad [M]: it threads the [World]
      (the instance, the log, the nonce manager, the trace of chain calls)
      and may throw; what was mutated before a throw stays mutated. *)

From Stdlib Require Import Floats ZArith.
From stdpp Require Import gmap strings list pretty.

Set Default Proof Using "Type".
Local Open Scope string_scope.
Local Open Scope list_scope.

(** ** JavaScript string helpers *)

(** [s.split(c)] for a one-character separator: the pieces between the
    occurrences of [c]; a string without [c] gives one piece, itself. *)
Fixpoint split (c : Ascii.ascii) (s : string) : list string :=
  match s with
  | EmptyString => [""]
  | String a rest =>
      if Ascii.eqb a c then "" :: split c rest
      else match split c rest with
           | piece :: pieces => String a piece :: pieces
           | [] => [String a ""]
           end
  end.

(** The separator of a pool string, the character [-]. *)
Definition dash : Ascii.ascii := Ascii.Ascii true false true true false true false false.

(** [arr.join(sep)]; the string conversion of an array of strings is
    [join ","]. *)
Fixpoint join (sep : string) (l : list string) : string :=
  match l with
  | [] => ""
  | [x] => x
  | x :: rest => x +:+ sep +:+ join sep rest
  end.

(** A value of type [string | undefined] inside a template literal. *)
Definition template (o : option string) : string := default "undefined" o.

(** The names of the members every object literal inherits from
    [Object.prototype]; [key in {}] holds for each of them. *)
Definition Object_prototype : list string :=
  ["constructor"; "__defineGetter__"; "__defineSetter__"; "hasOwnProperty";
   "__lookupGetter__"; "__lookupSetter__"; "isPrototypeOf"; "propertyIsEnumerable";
   "toString"; "valueOf"; "__proto__"; "toLocaleString"].

(** ** Data model *)

(** [TokenInfo] of the Ethereum service. *)
Record TokenInfo := {
  ti_chainId : Z;
  ti_address : string;
  ti_decimals : Z;
  ti_symbol : string;
  ti_name : string;
}.

(** [Token] of @uniswap/sdk: symbol and name are optional. *)
Record Token := {
  tokenChainId : Z;
  address : string;
  decimals : Z;
  symbol : option string;
  name : option string;
}.

Record TokenAmount := { token : Token; raw : Z }.

(** [Pair] of @uniswap/sdk: the two reserves of a pool. *)
Record Pair := { reserve0 : TokenAmount; reserve1 : TokenAmount }.

(** A [Percent] of @uniswap/sdk, as the numerator and the denominator it was
    built from. *)
Record Percent := { numerator : string; denominator : string }.

Inductive TradeType := EXACT_INPUT | EXACT_OUTPUT.

Record Route := { pairs : list Pair; path : list Token }.

Record Trade := {
  route : Route;
  tradeType : TradeType;
  inputAmount : TokenAmount;
  outputAmount : TokenAmount;
}.

(** [ExpectedTrade] of the common interfaces. *)
Record ExpectedTrade := { trade : Trade; expectedAmount : TokenAmount }.

(** ** getTradeRoute *)

(** The body of the [for (const token of trade.route.path)] loop, as a
    recursion over the rest of the path with the loop variable
    [prevTokenSymbol]; [acc] is the array [path] built so far. *)
Fixpoint getTradeRoute_loop (prevTokenSymbol : option string) (acc : list string)
    (tokens : list Token) : list string :=
  match tokens with
  | [] => acc
  | tok :: rest =>
      match symbol tok with
      | Some currentTokenSymbol =>
          let acc' :=
            match prevTokenSymbol with
            | Some prev => acc ++ [prev +:+ "-" +:+ currentTokenSymbol]
            | None => acc
            end in
          getTradeRoute_loop (Some currentTokenSymbol) acc' rest
      | None => getTradeRoute_loop prevTokenSymbol acc rest
      end
  end.

(** [getTradeRoute(trade)]; a [Route] always has a [path], so the test
    ['path' in trade.route] holds. *)
Definition getTradeRoute (t : Trade) : list string :=
  getTradeRoute_loop None [] (path (route t)).

(** The descriptors of the consecutive pairs of a list of symbols. *)
Fixpoint hops (symbols : list string) : list string :=
  match symbols with
  | a :: (b :: _) as rest => (a +:+ "-" +:+ b) :: hops rest
  | _ => []
  end.

(** The symbols of the tokens of a path that have one, in path order. *)
Definition definedSymbols (tokens : list Token) : list string :=
  omap symbol tokens.

(** ** Errors, results and collaborators *)

Inductive error :=
  | InitializationError (message : string) (code : Z)
  | UniswapishPriceError (message : string)
  | Error (message : string)
  | Rejected (reason : string).

(** The result of a call: a value, or the error thrown (for an awaited
    promise: the rejection). *)
Inductive outcome (A : Type) :=
  | Ok (a : A)
  | Err (e : error).
Arguments Ok {A} a.
Arguments Err {A} e.

Inductive ContractInterface := Abi (json : string).

Record Wallet := { wallet_address : string }.

(** [SwapParameters] of @uniswap/sdk. *)
Inductive SwapArg := ArgString (s : string) | ArgStrings (l : list string).
Record SwapParameters := {
  methodName : string;
  args : list SwapArg;
  value : string;
}.

(** [TradeOptions] handed to [Router.swapCallParameters]. *)
Record TradeOptions := {
  opt_ttl : float;
  opt_recipient : string;
  opt_allowedSlippage : Percent;
}.

(** The overrides object that ends a contract call; a key that the object
    literal does not have, or has with the value [undefined], is [None]. *)
Record Overrides := {
  gasPrice : option string;
  gasLimit : option string;
  ov_value : option string;
  ov_nonce : option nat;
  maxFeePerGas : option Z;
  maxPriorityFeePerGas : option Z;
}.

(** [new Contract(target, abi, signer)[method](...args, overrides)]. *)
Record ContractCall := {
  call_target : string;
  call_abi : ContractInterface;
  call_signer : Wallet;
  call_method : string;
  call_args : list SwapArg;
  call_overrides : Overrides;
}.

Record ContractTransaction := { hash : string }.

(** The Ethereum service of one network, as far as the connector reads it. *)
Record Ethereum := {
  eth_chainId : Z;
  eth_ready : bool;
  storedTokenList : list TokenInfo;
  getTokenForSymbol : string -> option TokenInfo;
}.

(** What the provider answers: the factory's [getPair], the SDK's
    [Fetcher.fetchPairData], and the submission of a router call. *)
Record Chain := {
  getPair : string -> ContractInterface -> string -> string -> outcome string;
  fetchPairData : Token -> Token -> outcome Pair;
  sendTransaction : ContractCall -> outcome ContractTransaction;
}.

(** The parts of @uniswap/sdk and of the JavaScript runtime the connector
    calls and does not define. The constructors and functions of the SDK
    check invariants and throw when one fails, so each returns an
    [outcome]. *)
Record Sdk := {
  (** [new Token(chainId, address, decimals, symbol, name)] *)
  Token_new : Z -> string -> Z -> option string -> option string -> outcome Token;
  (** [new TokenAmount(token, amount.toString())] *)
  TokenAmount_new : Token -> Z -> outcome TokenAmount;
  (** [new Percent(numerator, denominator)] *)
  Percent_new : string -> string -> outcome Percent;
  (** [Trade.bestTradeExactIn(pairs, amountIn, tokenOut, { maxHops })] *)
  bestTradeExactIn : list Pair -> TokenAmount -> Token -> nat -> outcome (list Trade);
  (** [Trade.bestTradeExactOut(pairs, tokenIn, amountOut, { maxHops })] *)
  bestTradeExactOut : list Pair -> Token -> TokenAmount -> nat -> outcome (list Trade);
  minimumAmountOut : Trade -> Percent -> outcome TokenAmount;
  maximumAmountIn : Trade -> Percent -> outcome TokenAmount;
  (** [Router.swapCallParameters(trade, options)] *)
  swapCallParameters : Trade -> TradeOptions -> outcome SwapParameters;
  (** [trade.executionPrice.toFixed(6)] and
      [trade.executionPrice.invert().toFixed(6)] *)
  executionPrice_toFixed6 : Trade -> outcome string;
  executionPrice_invert_toFixed6 : Trade -> outcome string;
  (** a [Token] object inside a template literal *)
  Token_toString : Token -> string;
  (** [Number.prototype.toFixed(0)] *)
  toFixed0 : float -> string;
}.

(** [UniswapConfig.config], with the constants the connector imports from
    the configuration manager, the error handler and the Ethereum base
    service. [percentRegexp s] is the result of [s.match(percentRegexp)]:
    the two captured groups when the string matches. *)
Record Config := {
  allowedSlippage : string;
  cfg_ttl : float;
  cfg_gasLimit : float;
  uniswapV2RouterAddress : string -> string;
  uniswapV2FactoryAddress : string -> string;
  pools : string -> list string;
  maxHops : string -> nat;
  cfg_routerAbi : ContractInterface;
  cfg_factoryAbi : ContractInterface;
  percentRegexp : string -> option (string * string);
  SERVICE_UNITIALIZED_ERROR_MESSAGE : string -> string;
  SERVICE_UNITIALIZED_ERROR_CODE : Z;
  zeroAddress : string;
  Ethereum_getInstance : string -> Ethereum;
}.

(** ** The instance and the world *)

(** The fields of a [Uniswap] object. *)
#[projections(primitive)]
Record Uniswap := {
  ethereum : Ethereum;
  _chain : string;
  _router : string;
  _factoryAddress : string;
  _routerAbi : ContractInterface;
  _factoryAbi : ContractInterface;
  _gasLimit : float;
  _ttl : float;
  chainId : Z;
  tokenList : gmap string Token;
  _ready : bool;
  _poolStrings : list string;
  _pools : list Pair;
  _maxHops : nat;
}.

Definition set_tokenList (f : gmap string Token -> gmap string Token) (u : Uniswap) : Uniswap :=
  {| ethereum := ethereum u; _chain := _chain u; _router := _router u;
     _factoryAddress := _factoryAddress u; _routerAbi := _routerAbi u;
     _factoryAbi := _factoryAbi u; _gasLimit := _gasLimit u; _ttl := _ttl u;
     chainId := chainId u; tokenList := f (tokenList u); _ready := _ready u;
     _poolStrings := _poolStrings u; _pools := _pools u; _maxHops := _maxHops u |}.

Definition set_pools (f : list Pair -> list Pair) (u : Uniswap) : Uniswap :=
  {| ethereum := ethereum u; _chain := _chain u; _router := _router u;
     _factoryAddress := _factoryAddress u; _routerAbi := _routerAbi u;
     _factoryAbi := _factoryAbi u; _gasLimit := _gasLimit u; _ttl := _ttl u;
     chainId := chainId u; tokenList := tokenList u; _ready := _ready u;
     _poolStrings := _poolStrings u; _pools := f (_pools u); _maxHops := _maxHops u |}.

Definition set_ready (b : bool) (u : Uniswap) : Uniswap :=
  {| ethereum := ethereum u; _chain := _chain u; _router := _router u;
     _factoryAddress := _factoryAddress u; _routerAbi := _routerAbi u;
     _factoryAbi := _factoryAbi u; _gasLimit := _gasLimit u; _ttl := _ttl u;
     chainId := chainId u; tokenList := tokenList u; _ready := b;
     _poolStrings := _poolStrings u; _pools := _pools u; _maxHops := _maxHops u |}.

Inductive LogEntry :=
  | LogInfo (message : string)
  | LogInfoTx (tx : ContractTransaction)
  | LogWarning (message : string).

(** The calls that reach the nonce manager and the router contract, in the
    order they are made. *)
Inductive Event :=
  | EGetNonce (wallet : string)
  | ESubmit (call : ContractCall)
  | ECommitNonce (wallet : string) (nonce : nat).

#[projections(primitive)]
Record World := {
  self : Uniswap;
  logs : list LogEntry;
  nonces : gmap string nat;
  trace : list Event;
}.

(** ** The monad of methods *)

Definition M (A : Type) : Type := World -> outcome A * World.

#[global] Instance M_ret : MRet M := fun A a w => (Ok a, w).
#[global] Instance M_bind : MBind M := fun A B k m w =>
  match m w with
  | (Ok a, w') => k a w'
  | (Err e, w') => (Err e, w')
  end.

Definition throw {A} (e : error) : M A := fun w => (Err e, w).

(** [await p]: the value of a settled promise, or its rejection thrown. *)
Definition await {A} (p : outcome A) : M A := fun w => (p, w).

(** A call of the SDK: its value, or the error it throws. *)
Definition call {A} (r : outcome A) : M A := fun w => (r, w).

Definition getThis : M Uniswap := fun w => (Ok (self w), w).

Definition modifyThis (f : Uniswap -> Uniswap) : M unit := fun w =>
  (Ok tt, {| self := f (self w); logs := logs w; nonces := nonces w; trace := trace w |}).

Definition logger (entry : LogEntry) : M unit := fun w =>
  (Ok tt, {| self := self w; logs := logs w ++ [entry]; nonces := nonces w; trace := trace w |}).

Definition emit (ev : Event) : M unit := fun w =>
  (Ok tt, {| self := self w; logs := logs w; nonces := nonces w; trace := trace w ++ [ev] |}).

(** [for (const x of l) body(x)] *)
Fixpoint forOf {A} (l : list A) (body : A -> M unit) : M unit :=
  match l with
  | [] => mret tt
  | x :: rest => body x ;; forOf rest body
  end.

(** Modelled from the spec: the per-wallet nonce manager
    ([ethereum.nonceManager], whose class is not among the sources).
    [nextNonce(wallet)] reads the wallet's next sequence number and changes
    nothing; a wallet not seen yet is at 0. *)
Definition getNonce (wallet : string) : M nat := fun w =>
  (Ok (default 0 (nonces w !! wallet)),
   {| self := self w; logs := logs w; nonces := nonces w;
      trace := trace w ++ [EGetNonce wallet] |}).

(** Modelled from the spec: [commitNonce(wallet, nonce)] of the nonce manager
    advances the wallet's sequence number past the committed nonce. *)
Definition commitNonce (wallet : string) (nonce : nat) : M unit := fun w =>
  (Ok tt,
   {| self := self w; logs := logs w; nonces := <[wallet := S nonce]> (nonces w);
      trace := trace w ++ [ECommitNonce wallet nonce] |}).

(** A value of type [string | null] as a condition: [null] and the empty
    string are falsy. *)
Definition truthy (o : option string) : bool :=
  match o with
  | Some s => negb (String.eqb s "")
  | None => false
  end.

(** ** The methods of the class *)

Section Methods.
Context (cfg : Config) (sdk : Sdk) (chain : Chain).

(** The private constructor. *)
Definition Uniswap_new (chain_name network : string) : Uniswap :=
  let eth := Ethereum_getInstance cfg network in
  {| ethereum := eth;
     _chain := chain_name;
     _router := uniswapV2RouterAddress cfg network;
     _factoryAddress := uniswapV2FactoryAddress cfg network;
     _routerAbi := cfg_routerAbi cfg;
     _factoryAbi := cfg_factoryAbi cfg;
     _gasLimit := cfg_gasLimit cfg;
     _ttl := cfg_ttl cfg;
     chainId := eth_chainId eth;
     tokenList := ∅;
     _ready := false;
     _poolStrings := pools cfg network;
     _pools := [];
     _maxHops := maxHops cfg network |}.

(** [new Token(chainId, info.address, info.decimals, info.symbol, info.name)]
    for a token of the Ethereum service. *)
Definition newToken (cid : Z) (info : TokenInfo) : outcome Token :=
  Token_new sdk cid (ti_address info) (ti_decimals info)
    (Some (ti_symbol info)) (Some (ti_name info)).

Definition getPool (tokenA tokenB : Token) (factory : string)
    (abi : ContractInterface) : M (option string) :=
  pairAddress ← await (getPair chain factory abi (address tokenA) (address tokenB));
  mret (if String.eqb pairAddress (zeroAddress cfg) then None else Some pairAddress).

(** The body of the loop of [initDirectPools], for one configured string. *)
Definition initDirectPool (pair : string) : M unit :=
  this ← getThis;
  let splitPair := split dash pair in
  match splitPair with
  | [base; quote] =>
      let baseTokenInfo := getTokenForSymbol (ethereum this) base in
      let quoteTokenInfo := getTokenForSymbol (ethereum this) quote in
      match baseTokenInfo, quoteTokenInfo with
      | Some baseInfo, Some quoteInfo =>
          baseToken ← call (newToken (chainId this) baseInfo);
          quoteToken ← call (newToken (chainId this) quoteInfo);
          pool ← getPool baseToken quoteToken (_factoryAddress this) (_factoryAbi this);
          if truthy pool then
            fetched ← await (fetchPairData chain baseToken quoteToken);
            modifyThis (set_pools (fun ps => ps ++ [fetched]))
          else
            logger (LogWarning
              ("There is not a direct pool pair for " +:+ join "," splitPair +:+
               " on " +:+ _chain this +:+ " for Uniswap V2."))
      | None, _ =>
          logger (LogWarning
            ("There is an unrecognized base token in your Uniswap V2 config for " +:+
             _chain this +:+ ": " +:+ base +:+ "."))
      | Some _, None =>
          logger (LogWarning
            ("There is an unrecognized quote token in your Uniswap V2 config for " +:+
             _chain this +:+ ": " +:+ quote +:+ "."))
      end
  | _ =>
      logger (LogWarning
        ("The pool pair " +:+ pair +:+ " in your Uniswap V2 config for " +:+
         _chain this +:+
         " is malformed. It should be a string in the format 'BASE-QUOTE'."))
  end.

Definition initDirectPools : M unit :=
  this ← getThis;
  forOf (_poolStrings this) initDirectPool.

(** The body of the token loop of [init]:
    [this.tokenList[token.address] = new Token(...)]. *)
Definition listToken (info : TokenInfo) : M unit :=
  this ← getThis;
  tok ← call (newToken (chainId this) info);
  modifyThis (set_tokenList (fun tl => <[ti_address info := tok]> tl)).

Definition init : M unit :=
  this ← getThis;
  if String.eqb (_chain this) "ethereum" && negb (eth_ready (ethereum this)) then
    throw (InitializationError
             (SERVICE_UNITIALIZED_ERROR_MESSAGE cfg "ETH")
             (SERVICE_UNITIALIZED_ERROR_CODE cfg))
  else
    forOf (storedTokenList (ethereum this)) listToken ;;
    initDirectPools ;;
    modifyThis (set_ready true).

Definition ready : M bool := this ← getThis; mret (_ready this).


Definition getSlippagePercentage : M Percent :=
  let nd := percentRegexp cfg (allowedSlippage cfg) in
  match nd with
  | Some (nd1, nd2) => call (Percent_new sdk nd1 nd2)
  | None =>
      throw (Error
        "Encountered a malformed percent string in the config for ALLOWED_SLIPPAGE.")
  end.

(** Given the amount of [baseToken] to put into a transaction, the amount
    of [quoteToken] that can be expected from it. *)
Definition estimateSellTrade (baseToken quoteToken : Token) (amount : Z)
    : M ExpectedTrade :=
  nativeTokenAmount ← call (TokenAmount_new sdk baseToken amount);
  logger (LogInfo
    ("Fetching pair data for " +:+ address baseToken +:+ "-" +:+
     address quoteToken +:+ ".")) ;;
  pair ← await (fetchPairData chain baseToken quoteToken);
  this ← getThis;
  trades ← call (bestTradeExactIn sdk (_pools this ++ [pair]) nativeTokenAmount
                   quoteToken (_maxHops this));
  match trades with
  | [] =>
      throw (UniswapishPriceError
        ("priceSwapIn: no trade pair found for " +:+ Token_toString sdk baseToken +:+
         " to " +:+ Token_toString sdk quoteToken +:+ "."))
  | best :: _ =>
      price ← call (executionPrice_toFixed6 sdk best);
      logger (LogInfo
        ("Best trade for " +:+ address baseToken +:+ "-" +:+ address quoteToken +:+
         ": " +:+ price +:+ template (name baseToken) +:+ ".")) ;;
      slippage ← getSlippagePercentage;
      expected ← call (minimumAmountOut sdk best slippage);
      mret {| trade := best; expectedAmount := expected |}
  end.

(** Given the amount of [baseToken] desired from a transaction, the amount
    of [quoteToken] needed for it. *)
Definition estimateBuyTrade (quoteToken baseToken : Token) (amount : Z)
    : M ExpectedTrade :=
  nativeTokenAmount ← call (TokenAmount_new sdk baseToken amount);
  logger (LogInfo
    ("Fetching pair data for " +:+ address quoteToken +:+ "-" +:+
     address baseToken +:+ ".")) ;;
  pair ← await (fetchPairData chain quoteToken baseToken);
  this ← getThis;
  trades ← call (bestTradeExactOut sdk (_pools this ++ [pair]) quoteToken
                   nativeTokenAmount (_maxHops this));
  match trades with
  | [] =>
      throw (UniswapishPriceError
        ("priceSwapOut: no trade pair found for " +:+ address quoteToken +:+
         " to " +:+ address baseToken +:+ "."))
  | best :: _ =>
      price ← call (executionPrice_invert_toFixed6 sdk best);
      logger (LogInfo
        ("Best trade for " +:+ address quoteToken +:+ "-" +:+ address baseToken +:+
         ": " +:+ price +:+ " " +:+ template (name baseToken) +:+ ".")) ;;
      slippage ← getSlippagePercentage;
      expected ← call (maximumAmountIn sdk best slippage);
      mret {| trade := best; expectedAmount := expected |}
  end.

(** [contract[method](...args, overrides)] on the router: the call is
    recorded, then the chain accepts or rejects it. *)
Definition submit (c : ContractCall) : M ContractTransaction :=
  emit (ESubmit c) ;;
  await (sendTransaction chain c).

(** The overrides of the two branches of [executeTrade]. *)
Definition feeCapOverrides (gasLimit_ : float) (value_ : string) (nonce : nat)
    (maxFee maxPriorityFee : option Z) : Overrides :=
  {| gasPrice := None;
     gasLimit := Some (toFixed0 sdk gasLimit_);
     ov_value := Some value_;
     ov_nonce := Some nonce;
     maxFeePerGas := maxFee;
     maxPriorityFeePerGas := maxPriorityFee |}.

Definition legacyOverrides (gasPrice_ gasLimit_ : float) (value_ : string)
    (nonce : nat) : Overrides :=
  {| gasPrice := Some (toFixed0 sdk (gasPrice_ * 1e9)%float);
     gasLimit := Some (toFixed0 sdk gasLimit_);
     ov_value := Some value_;
     ov_nonce := Some nonce;
     maxFeePerGas := None;
     maxPriorityFeePerGas := None |}.

(** Given a wallet and a trade, try to execute it on the blockchain. *)
Definition executeTrade (wallet : Wallet) (trade_ : Trade) (gasPrice_ : float)
    (uniswapRouter : string) (ttl : float) (abi : ContractInterface)
    (gasLimit_ : float) (nonce : option nat)
    (maxFeePerGas_ maxPriorityFeePerGas_ : option Z) : M ContractTransaction :=
  slippage ← getSlippagePercentage;
  result ← call (swapCallParameters sdk trade_
                   {| opt_ttl := ttl; opt_recipient := wallet_address wallet;
                      opt_allowedSlippage := slippage |});
  let contract overrides :=
    {| call_target := uniswapRouter; call_abi := abi; call_signer := wallet;
       call_method := methodName result; call_args := args result;
       call_overrides := overrides |} in
  nonce ← match nonce with
          | None => getNonce (wallet_address wallet)
          | Some n => mret n
          end;
  tx ← (if bool_decide (maxFeePerGas_ ≠ None ∨ maxPriorityFeePerGas_ ≠ None) then
          submit (contract (feeCapOverrides gasLimit_ (value result) nonce
                              maxFeePerGas_ maxPriorityFeePerGas_))
        else
          submit (contract (legacyOverrides gasPrice_ gasLimit_ (value result) nonce)));
  logger (LogInfoTx tx) ;;
  commitNonce (wallet_address wallet) nonce ;;
  mret tx.
End Methods.

(** ** The instance registry *)

(** What [getInstance] hands back: an instance, identified by its position
    among the objects created, or a member the registry object inherits. *)
Inductive Member :=
  | Instance (l : nat)
  | Inherited (name : string).

(** The static field [Uniswap._instances] ([None] while it is [undefined])
    and the objects created so far. *)
Record Statics := {
  _instances : option (gmap string nat);
  heap : list Uniswap;
}.

Definition Statics_initial : Statics := {| _instances := None; heap := [] |}.

(** The registry as a map: empty while [_instances] is [undefined]. *)
Definition instances (st : Statics) : gmap string nat := default ∅ (_instances st).

(** [key in registry]: the class stored an instance under [key], or [key]
    names an inherited member. *)
Definition has_key (registry : gmap string nat) (key : string) : bool :=
  bool_decide (key ∈ dom registry) || bool_decide (key ∈ Object_prototype).

(** [registry[key]], read where [key in registry] holds: the instance stored
    under [key], and otherwise the inherited member of that name. *)
Definition member (registry : gmap string nat) (key : string) : Member :=
  match registry !! key with
  | Some l => Instance l
  | None => Inherited key
  end.

(** Every registered key names an object of the heap, and no object is
    registered under two keys. *)
Definition registry_ok (st : Statics) : Prop :=
  forall k l, instances st !! k = Some l ->
    l < length (heap st) /\ forall k', instances st !! k' = Some l -> k' = k.

Section Registry.
Context (cfg : Config).

Definition getInstance (chain_name network : string) (st : Statics)
    : Member * Statics :=
  let registry := default ∅ (_instances st) in
  let key := chain_name +:+ network in
  let st' :=
    if has_key registry key then
      {| _instances := Some registry; heap := heap st |}
    else
      {| _instances := Some (<[key := length (heap st)]> registry);
         heap := heap st ++ [Uniswap_new cfg chain_name network] |} in
  (member (default ∅ (_instances st')) key, st').

(** A sequence of calls of [getInstance], results dropped. *)
Definition getInstances (calls : list (string * string)) (st : Statics) : Statics :=
  foldl (fun st c => (getInstance c.1 c.2 st).2) st calls.
End Registry.

(** ** The specification of pool initialisation, entry by entry *)

Inductive EntryResult :=
  | Skipped (warning : string)
  | Appended (pool : Pair).

Definition appended (results : list EntryResult) : list Pair :=
  omap (fun r => match r with Appended p => Some p | Skipped _ => None end) results.

Definition warnings (results : list EntryResult) : list LogEntry :=
  omap (fun r => match r with Skipped m => Some (LogWarning m) | Appended _ => None end)
       results.

(** The warning of [initDirectPools] for a string that is not of the form
    BASE-QUOTE. *)
Definition malformedWarning (u : Uniswap) (entry : string) : string :=
  "The pool pair " +:+ entry +:+ " in your Uniswap V2 config for " +:+ _chain u +:+
  " is malformed. It should be a string in the format 'BASE-QUOTE'.".

(** The warning of [initDirectPools] for a pair the factory does not know. *)
Definition noPoolWarning (u : Uniswap) (base quote : string) : string :=
  "There is not a direct pool pair for " +:+ (base +:+ "," +:+ quote) +:+
  " on " +:+ _chain u +:+ " for Uniswap V2.".

Section EntrySpec.
Context (cfg : Config) (sdk : Sdk) (chain : Chain) (u : Uniswap).

(** What the specification asks of one configured string: a string that
    does not split into two parts, an unresolved symbol and a zero pair
    address are skipped with their warning; otherwise the fetched pair is
    appended. For the last two the SDK has built the two tokens, and the
    factory is asked with their addresses. (The factory answers with an
    address, never the empty string.) *)
Inductive spec_entry (entry : string) : EntryResult -> Prop :=
  | entry_malformed :
      length (split dash entry) ≠ 2 ->
      spec_entry entry (Skipped (malformedWarning u entry))
  | entry_unknown_base base quote :
      split dash entry = [base; quote] ->
      getTokenForSymbol (ethereum u) base = None ->
      spec_entry entry (Skipped
        ("There is an unrecognized base token in your Uniswap V2 config for " +:+
         _chain u +:+ ": " +:+ base +:+ "."))
  | entry_unknown_quote base quote baseInfo :
      split dash entry = [base; quote] ->
      getTokenForSymbol (ethereum u) base = Some baseInfo ->
      getTokenForSymbol (ethereum u) quote = None ->
      spec_entry entry (Skipped
        ("There is an unrecognized quote token in your Uniswap V2 config for " +:+
         _chain u +:+ ": " +:+ quote +:+ "."))
  | entry_no_pool base quote baseInfo quoteInfo baseToken quoteToken :
      split dash entry = [base; quote] ->
      getTokenForSymbol (ethereum u) base = Some baseInfo ->
      getTokenForSymbol (ethereum u) quote = Some quoteInfo ->
      newToken sdk (chainId u) baseInfo = Ok baseToken ->
      newToken sdk (chainId u) quoteInfo = Ok quoteToken ->
      getPair chain (_factoryAddress u) (_factoryAbi u)
        (address baseToken) (address quoteToken) = Ok (zeroAddress cfg) ->
      spec_entry entry (Skipped (noPoolWarning u base quote))
  | entry_pool base quote baseInfo quoteInfo baseToken quoteToken pairAddress pool :
      split dash entry = [base; quote] ->
      getTokenForSymbol (ethereum u) base = Some baseInfo ->
      getTokenForSymbol (ethereum u) quote = Some quoteInfo ->
      newToken sdk (chainId u) baseInfo = Ok baseToken ->
      newToken sdk (chainId u) quoteInfo = Ok quoteToken ->
      getPair chain (_factoryAddress u) (_factoryAbi u)
        (address baseToken) (address quoteToken) = Ok pairAddress ->
      pairAddress ≠ zeroAddress cfg ->
      pairAddress ≠ "" ->
      fetchPairData chain baseToken quoteToken = Ok pool ->
      spec_entry entry (Appended pool).

(** The SDK and the chain answer what an entry needs: for resolved symbols
    the two tokens are built, the factory returns an address, and when that
    is not the zero address the pair data is fetched. *)
Definition entry_answered (entry : string) : Prop :=
  forall base quote baseInfo quoteInfo,
    split dash entry = [base; quote] ->
    getTokenForSymbol (ethereum u) base = Some baseInfo ->
    getTokenForSymbol (ethereum u) quote = Some quoteInfo ->
    exists baseToken quoteToken pairAddress,
      newToken sdk (chainId u) baseInfo = Ok baseToken /\
      newToken sdk (chainId u) quoteInfo = Ok quoteToken /\
      getPair chain (_factoryAddress u) (_factoryAbi u)
        (address baseToken) (address quoteToken) = Ok pairAddress /\
      pairAddress ≠ "" /\
      (pairAddress ≠ zeroAddress cfg ->
       exists pool, fetchPairData chain baseToken quoteToken = Ok pool).

(** An entry with two resolved symbols on which the loop throws [e]: the
    SDK refuses one of the tokens, or the chain rejects the factory call or
    the fetch of the pair the factory named. *)
Definition entry_rejected (entry : string) (e : error) : Prop :=
  exists base quote baseInfo quoteInfo,
    split dash entry = [base; quote] /\
    getTokenForSymbol (ethereum u) base = Some baseInfo /\
    getTokenForSymbol (ethereum u) quote = Some quoteInfo /\
    (newToken sdk (chainId u) baseInfo = Err e \/
     exists baseToken,
       newToken sdk (chainId u) baseInfo = Ok baseToken /\
       (newToken sdk (chainId u) quoteInfo = Err e \/
        exists quoteToken,
          newToken sdk (chainId u) quoteInfo = Ok quoteToken /\
          (getPair chain (_factoryAddress u) (_factoryAbi u)
             (address baseToken) (address quoteToken) = Err e \/
           exists pairAddress,
             getPair chain (_factoryAddress u) (_factoryAbi u)
               (address baseToken) (address quoteToken) = Ok pairAddress /\
             pairAddress ≠ zeroAddress cfg /\ pairAddress ≠ "" /\
             fetchPairData chain baseToken quoteToken = Err e))).
End EntrySpec.

(** The effect of one entry on the world. *)
Definition after_entry (r : EntryResult) (w : World) : World :=
  match r with
  | Skipped m =>
      {| self := self w; logs := logs w ++ [LogWarning m];
         nonces := nonces w; trace := trace w |}
  | Appended p =>
      {| self := set_pools (fun ps => ps ++ [p]) (self w); logs := logs w;
         nonces := nonces w; trace := trace w |}
  end.

(** The effect of a list of entries, each handled in turn. *)
Definition after_entries (results : list EntryResult) (w : World) : World :=
  {| self := set_pools (fun ps => ps ++ appended results) (self w);
     logs := logs w ++ warnings results;
     nonces := nonces w; trace := trace w |}.

(** Two instances of the same deployment: they agree on what pool
    initialisation reads. *)
Definition same_deployment (u u' : Uniswap) : Prop :=
  ethereum u' = ethereum u /\ _chain u' = _chain u /\
  _factoryAddress u' = _factoryAddress u /\ _factoryAbi u' = _factoryAbi u /\
  chainId u' = chainId u /\ _poolStrings u' = _poolStrings u.

(** The token loop of [init] over the stored token list, on the token list
    alone: each stored token is built and entered under its stored address,
    a later one replacing an earlier one with the same address, up to the
    first token the SDK refuses. *)
Fixpoint listTokens (sdk : Sdk) (cid : Z) (infos : list TokenInfo)
    (tl : gmap string Token) : outcome unit * gmap string Token :=
  match infos with
  | [] => (Ok tt, tl)
  | info :: rest =>
      match newToken sdk cid info with
      | Ok tok => listTokens sdk cid rest (<[ti_address info := tok]> tl)
      | Err e => (Err e, tl)
      end
  end.

(** The world after the token loop of [init]. *)
Definition tokens_listed (sdk : Sdk) (w : World) : World :=
  {| self := set_tokenList
               (fun tl => (listTokens sdk (chainId (self w))
                             (storedTokenList (ethereum (self w))) tl).2)
               (self w);
     logs := logs w; nonces := nonces w; trace := trace w |}.

Definition made_ready (w : World) : World :=
  {| self := set_ready true (self w); logs := logs w; nonces := nonces w;
     trace := trace w |}.

(** ** Further notions used in the statements *)



(** The key of a call of [getInstance]. *)
Definition callKey (c : string * string) : string := c.1 +:+ c.2.

(** The first call of a list of calls of [getInstance] whose key is [key]. *)
Fixpoint firstCall (key : string) (calls : list (string * string))
    : option (string * string) :=
  match calls with
  | [] => None
  | c :: rest => if decide (c.1 +:+ c.2 = key) then Some c else firstCall key rest
  end.

(** The keys under which a list of calls of [getInstance] makes the class
    store an instance: those that name no inherited member. *)
Definition storedKeys (calls : list (string * string)) : gset string :=
  list_to_set (filter (fun key => key ∉ Object_prototype) (map callKey calls)).

(** The events [executeTrade] adds before the submission: the request to the
    nonce manager, when no nonce is supplied. *)
Definition nonceRequest (wallet : Wallet) (nonce : option nat) : list Event :=
  match nonce with
  | Some _ => []
  | None => [EGetNonce (wallet_address wallet)]
  end.




(** The class never stores an instance under an inherited name. *)
Definition registry_clean (st : Statics) : Prop :=
  forall k, is_Some (instances st !! k) -> k ∉ Object_prototype.

(** ** The slippage bounds of the published SDK

    [Trade.minimumAmountOut] and [Trade.maximumAmountIn] belong to
    @uniswap/sdk, which is not among the sources. What follows is
    transcribed from the published package (version 3.0.3,
    [entities/trade.ts] and [entities/fractions/fraction.ts]):

      minimumAmountOut(t) = new Fraction(ONE).add(t).invert()
                              .multiply(this.outputAmount.raw).quotient
      maximumAmountIn(t)  = new Fraction(ONE).add(t)
                              .multiply(this.inputAmount.raw).quotient

    for an exact-input and an exact-output trade respectively, where the
    quotient of a fraction is the integer division of its numerator by its
    denominator. *)

(** The number a string of decimal digits denotes. *)
Definition digitValue (a : Ascii.ascii) : option Z :=
  let n := Ascii.nat_of_ascii a in
  if (48 <=? n)%nat && (n <=? 57)%nat then Some (Z.of_nat n - 48)%Z else None.

Fixpoint digitsFrom (acc : Z) (s : string) : option Z :=
  match s with
  | EmptyString => Some acc
  | String a rest =>
      match digitValue a with
      | Some d => digitsFrom (acc * 10 + d)%Z rest
      | None => None
      end
  end.

Definition digits (s : string) : option Z :=
  match s with
  | EmptyString => None
  | _ => digitsFrom 0 s
  end.

(** [(1 + n/d)^-1 * out], as a quotient: [out * d / (d + n)]. *)
Definition slippageAdjustedAmountOut (out n d : Z) : Z := (out * d / (d + n))%Z.

(** [(1 + n/d) * in], as a quotient: [in * (d + n) / d]. *)
Definition slippageAdjustedAmountIn (inp n d : Z) : Z := (inp * (d + n) / d)%Z.


(** ** A concrete deployment, for examples

    Ethereum mainnet with WETH, DAI and USDC listed. The factory knows the
    pair of WETH and DAI, with reserves of 1000000 units of each; there is
    no pair of WETH and USDC. The configuration lists a malformed pool
    string before a valid one. The SDK is a small stand-in that behaves as
    the published one does on what the examples hand it: it checks the
    invariants of its constructors, trades over the first pair by the
    constant-product formula with the 0.3% fee, and computes the slippage
    bounds as above. Of the arguments of the router call it keeps the path
    and the recipient; the amounts and the deadline, which depends on the
    clock, are left out. *)

Module Demo.
Definition WETH : string := "0xC02aaA39b223FE8D0A0e5C4F27eAD9083C756Cc2".
Definition DAI : string := "0x6B175474E89094C44Da98b954EedeAC495271d0F".
Definition USDC : string := "0xA0b86991c6218b36c1d19D4a2e9Eb0cE3606eB48".
Definition UNI : string := "0x1f9840a85d5aF5bf1D1762F925BDADdC4201F984".
Definition pairAddress : string := "0xA478c2975Ab1Ea89e8196811F51A7B7Ade33eB11".
Definition router : string := "0x7a250d5630B4cF539739dF2C5dAcb4c659F2488D".
Definition factory : string := "0x5C69bEe701ef814a2B6a3EDD4B1652CB9cc5aA6f".
Definition zero : string := "0x0000000000000000000000000000000000000000".

Definition weth : TokenInfo :=
  {| ti_chainId := 1; ti_address := WETH; ti_decimals := 18;
     ti_symbol := "WETH"; ti_name := "Wrapped Ether" |}.
Definition dai : TokenInfo :=
  {| ti_chainId := 1; ti_address := DAI; ti_decimals := 18;
     ti_symbol := "DAI"; ti_name := "Dai Stablecoin" |}.
Definition usdc : TokenInfo :=
  {| ti_chainId := 1; ti_address := USDC; ti_decimals := 6;
     ti_symbol := "USDC"; ti_name := "USD Coin" |}.

Definition wethToken : Token :=
  {| tokenChainId := 1; address := WETH; decimals := 18;
     symbol := Some "WETH"; name := Some "Wrapped Ether" |}.
Definition daiToken : Token :=
  {| tokenChainId := 1; address := DAI; decimals := 18;
     symbol := Some "DAI"; name := Some "Dai Stablecoin" |}.

Definition eth : Ethereum :=
  {| eth_chainId := 1;
     eth_ready := true;
     storedTokenList := [weth; dai; usdc];
     getTokenForSymbol := fun s =>
       if String.eqb s "WETH" then Some weth
       else if String.eqb s "DAI" then Some dai
       else if String.eqb s "USDC" then Some usdc else None |}.

Definition cfg : Config :=
  {| allowedSlippage := "1/100";
     cfg_ttl := 600%float;
     cfg_gasLimit := 150688%float;
     uniswapV2RouterAddress := fun _ => router;
     uniswapV2FactoryAddress := fun _ => factory;
     pools := fun _ => ["ONLYONE"; "WETH-DAI"];
     maxHops := fun _ => 4;
     cfg_routerAbi := Abi "router";
     cfg_factoryAbi := Abi "factory";
     percentRegexp := fun s =>
       if String.eqb s "1/100" then Some ("1", "100") else None;
     SERVICE_UNITIALIZED_ERROR_MESSAGE := fun s => s +:+ " is not initialized.";
     SERVICE_UNITIALIZED_ERROR_CODE := 1003;
     zeroAddress := zero;
     Ethereum_getInstance := fun _ => eth |}.

(** The pair of DAI and WETH; DAI has the lower address and comes first. *)
Definition wethDai : Pair :=
  {| reserve0 := {| token := daiToken; raw := 1000000 |};
     reserve1 := {| token := wethToken; raw := 1000000 |} |}.

Definition isWethDai (a b : string) : bool :=
  (String.eqb a WETH && String.eqb b DAI) || (String.eqb a DAI && String.eqb b WETH).

(** A chain that accepts every submission but those with nonce 7. *)
Definition chain : Chain :=
  {| getPair := fun _ _ a b => if isWethDai a b then Ok pairAddress else Ok zero;
     fetchPairData := fun a b =>
       if isWethDai (address a) (address b) then Ok wethDai
       else Err (Rejected "call revert exception");
     sendTransaction := fun c =>
       match ov_nonce (call_overrides c) with
       | Some 7 => Err (Rejected "nonce too low")
       | _ => Ok {| hash := "0xfeed" |}
       end |}.

(** The addresses the stand-in accepts: they are in checksummed form, which
    is what the constructor stores. *)
Definition validAddress (a : string) : bool :=
  String.eqb a WETH || String.eqb a DAI || String.eqb a USDC || String.eqb a UNI.

(** The reserves of a pair for a trade from [tokenIn] to [tokenOut]. *)
Definition reserves (p : Pair) (tokenIn tokenOut : Token) : option (Z * Z) :=
  if String.eqb (address (token (reserve0 p))) (address tokenIn)
     && String.eqb (address (token (reserve1 p))) (address tokenOut)
  then Some (raw (reserve0 p), raw (reserve1 p))
  else if String.eqb (address (token (reserve1 p))) (address tokenIn)
          && String.eqb (address (token (reserve0 p))) (address tokenOut)
  then Some (raw (reserve1 p), raw (reserve0 p))
  else None.

Definition directTrade (p : Pair) (type : TradeType) (tokenIn tokenOut : Token)
    (amountIn amountOut : Z) : Trade :=
  {| route := {| pairs := [p]; path := [tokenIn; tokenOut] |};
     tradeType := type;
     inputAmount := {| token := tokenIn; raw := amountIn |};
     outputAmount := {| token := tokenOut; raw := amountOut |} |}.

(** A price to six decimals, rounded half up. *)
Fixpoint zeros (n : nat) : string :=
  match n with O => "" | S n => "0" +:+ zeros n end.

Definition toFixed6 (num den : Z) : outcome string :=
  if (den =? 0)%Z then Err (Error "[big.js] Division by zero")
  else
    let scaled := ((2 * num * 1000000 + den) / (2 * den))%Z in
    let fraction := pretty (scaled mod 1000000)%Z in
    Ok (pretty (scaled / 1000000)%Z +:+ "." +:+
        zeros (6 - String.length fraction) +:+ fraction).

Definition sdk : Sdk :=
  {| Token_new := fun cid a d sym nm =>
       if negb ((0 <=? d)%Z && (d <=? 255)%Z) then
         Err (Error ("Invariant failed: " +:+ pretty d +:+ " is not a uint8."))
       else if validAddress a then
         Ok {| tokenChainId := cid; address := a; decimals := d;
               symbol := sym; name := nm |}
       else Err (Error ("Invariant failed: " +:+ a +:+ " is not a valid address."));
     TokenAmount_new := fun tok amount =>
       if (0 <=? amount)%Z && (amount <? 2 ^ 256)%Z then
         Ok {| token := tok; raw := amount |}
       else Err (Error ("Invariant failed: " +:+ pretty amount +:+ " is not a uint256."));
     Percent_new := fun s1 s2 =>
       match digits s1, digits s2 with
       | Some _, Some _ => Ok {| numerator := s1; denominator := s2 |}
       | _, _ => Err (Error "Cannot convert to a BigInt")
       end;
     bestTradeExactIn := fun ps amountIn tokenOut hops =>
       match ps with
       | [] => Err (Error "Invariant failed: PAIRS")
       | p :: _ =>
           if (hops =? 0)%nat then Err (Error "Invariant failed: MAX_HOPS")
           else match reserves p (token amountIn) tokenOut with
                | Some (rin, rout) =>
                    let out := (raw amountIn * 997 * rout
                                / (rin * 1000 + raw amountIn * 997))%Z in
                    if (rin =? 0)%Z || (rout =? 0)%Z || (out =? 0)%Z then Ok []
                    else Ok [directTrade p EXACT_INPUT (token amountIn) tokenOut
                               (raw amountIn) out]
                | None => Ok []
                end
       end;
     bestTradeExactOut := fun ps tokenIn amountOut hops =>
       match ps with
       | [] => Err (Error "Invariant failed: PAIRS")
       | p :: _ =>
           if (hops =? 0)%nat then Err (Error "Invariant failed: MAX_HOPS")
           else match reserves p tokenIn (token amountOut) with
                | Some (rin, rout) =>
                    if (rin =? 0)%Z || (rout =? 0)%Z || (rout <=? raw amountOut)%Z
                    then Ok []
                    else Ok [directTrade p EXACT_OUTPUT tokenIn (token amountOut)
                               (rin * raw amountOut * 1000
                                / ((rout - raw amountOut) * 997) + 1)%Z
                               (raw amountOut)]
                | None => Ok []
                end
       end;
     minimumAmountOut := fun t p =>
       match tradeType t, digits (numerator p), digits (denominator p) with
       | EXACT_OUTPUT, _, _ => Ok (outputAmount t)
       | EXACT_INPUT, Some n, Some d =>
           if (d + n =? 0)%Z then Err (Error "Division by zero")
           else Ok {| token := token (outputAmount t);
                      raw := slippageAdjustedAmountOut (raw (outputAmount t)) n d |}
       | _, _, _ => Err (Error "Cannot convert to a BigInt")
       end;
     maximumAmountIn := fun t p =>
       match tradeType t, digits (numerator p), digits (denominator p) with
       | EXACT_INPUT, _, _ => Ok (inputAmount t)
       | EXACT_OUTPUT, Some n, Some d =>
           if (d =? 0)%Z then Err (Error "Division by zero")
           else Ok {| token := token (inputAmount t);
                      raw := slippageAdjustedAmountIn (raw (inputAmount t)) n d |}
       | _, _, _ => Err (Error "Cannot convert to a BigInt")
       end;
     swapCallParameters := fun t opts =>
       if (0 <? opt_ttl opts)%float then
         Ok {| methodName :=
                 match tradeType t with
                 | EXACT_INPUT => "swapExactTokensForTokens"
                 | EXACT_OUTPUT => "swapTokensForExactTokens"
                 end;
               args := [ArgStrings (map address (path (route t)));
                        ArgString (opt_recipient opts)];
               value := "0x0" |}
       else Err (Error "Invariant failed: TTL");
     executionPrice_toFixed6 := fun t =>
       toFixed6 (raw (outputAmount t)) (raw (inputAmount t));
     executionPrice_invert_toFixed6 := fun t =>
       toFixed6 (raw (inputAmount t)) (raw (outputAmount t));
     Token_toString := fun _ => "[object Object]";
     toFixed0 := fun x =>
       if (x =? 2e9)%float then "2000000000"
       else if (x =? 150688)%float then "150688" else "0" |}.

Definition uniswap : Uniswap := Uniswap_new cfg "ethereum" "mainnet".

Definition world : World :=
  {| self := uniswap; logs := []; nonces := ∅; trace := [] |}.

Definition wallet : Wallet :=
  {| wallet_address := "0xd8dA6BF26964aF9D7eEd9e03E53415D37aA96045" |}.

(** A trade over a path whose middle token carries no symbol. *)
Definition anonymous : Token :=
  {| tokenChainId := 1; address := UNI; decimals := 18;
     symbol := None; name := None |}.

Definition viaAnonymous : Trade :=
  {| route := {| pairs := [wethDai; wethDai];
                 path := [wethToken; anonymous; daiToken] |};
     tradeType := EXACT_INPUT;
     inputAmount := {| token := wethToken; raw := 20000 |};
     outputAmount := {| token := daiToken; raw := 19000 |} |}.

(** The trade of 20000 units of WETH for DAI over the pair: 19550 units. *)
Definition direct : Trade :=
  directTrade wethDai EXACT_INPUT wethToken daiToken 20000 19550.
End Demo.

(** ** A deployment with faults, for examples

    The slippage setting is not a fraction, and the factory call for a pair
    whose first token is DAI times out. *)

Module Faulty.
Definition cfg : Config :=
  {| allowedSlippage := "1%";
     cfg_ttl := 600%float;
     cfg_gasLimit := 150688%float;
     uniswapV2RouterAddress := fun _ => Demo.router;
     uniswapV2FactoryAddress := fun _ => Demo.factory;
     pools := fun _ => ["ONLYONE"; "WETH-DAI"; "DAI-WETH"; "WETH-DAI"];
     maxHops := fun _ => 4;
     cfg_routerAbi := Abi "router";
     cfg_factoryAbi := Abi "factory";
     percentRegexp := fun s =>
       if String.eqb s "1/100" then Some ("1", "100") else None;
     SERVICE_UNITIALIZED_ERROR_MESSAGE := fun s => s +:+ " is not initialized.";
     SERVICE_UNITIALIZED_ERROR_CODE := 1003;
     zeroAddress := Demo.zero;
     Ethereum_getInstance := fun _ => Demo.eth |}.

Definition chain : Chain :=
  {| getPair := fun _ _ a _ =>
       if String.eqb a Demo.DAI then Err (Rejected "timeout") else Ok Demo.pairAddress;
     fetchPairData := fun _ _ => Ok Demo.wethDai;
     sendTransaction := fun _ => Ok {| hash := "0xfeed" |} |}.

Definition sdk : Sdk := Demo.sdk.

Definition uniswap : Uniswap := Uniswap_new cfg "ethereum" "mainnet".

Definition world : World :=
  {| self := uniswap; logs := []; nonces := ∅; trace := [] |}.
End Faulty.
(** * Properties *)

(** ** Strings *)

Example split_examples :
  split dash "WETH-DAI" = ["WETH"; "DAI"] /\
  split dash "ONLYONE" = ["ONLYONE"] /\
  split dash "" = [""] /\
  split dash "A-B-C" = ["A"; "B"; "C"] /\
  split dash "A-" = ["A"; ""].
Proof. repeat split; reflexivity. Qed.


(** ** getTradeRoute *)

Lemma getTradeRoute_loop_hops tokens : forall prev acc,
  getTradeRoute_loop prev acc tokens =
  acc ++ hops (option_list prev ++ definedSymbols tokens).
Proof.
  induction tokens as [|tok rest IH]; intros prev acc; simpl.
  - destruct prev; simpl; by rewrite app_nil_r.
  - unfold definedSymbols in *. simpl. destruct (symbol tok) as [cur|]; simpl.
    + rewrite IH. destruct prev as [p|]; simpl; [|done].
      by rewrite <- app_assoc.
    + apply IH.
Qed.

Lemma hops_length (l : list string) : length (hops l) = length l - 1.
Proof.
  induction l as [|a [|b l] IH]; simpl in *; try done.
  rewrite IH. lia.
Qed.

Lemma hops_lookup (l : list string) : forall i a b,
  l !! i = Some a -> l !! S i = Some b -> hops l !! i = Some (a +:+ "-" +:+ b).
Proof.
  induction l as [|x l IH]; intros i a b Ha Hb; [done|].
  destruct l as [|y l]; [by destruct i|].
  destruct i as [|i].
  - simpl in *. by simplify_eq.
  - change (hops (y :: l) !! i = Some (a +:+ "-" +:+ b)). by apply IH.
Qed.

Lemma definedSymbols_all tokens :
  Forall (fun tok => is_Some (symbol tok)) tokens ->
  definedSymbols tokens = map (fun tok => template (symbol tok)) tokens.
Proof.
  induction 1 as [|tok rest [s Hs] _ IH]; [done|].
  unfold definedSymbols in *. cbn [omap list_omap map]. rewrite Hs. cbn.
  by f_equal.
Qed.

(** C9, as amended. [getTradeRoute] emits one descriptor per consecutive pair
    of the symbols that are defined along the route path, in path order: a
    token without a symbol is passed over. When every token of the path
    t1, ..., tn has a symbol, these are the n-1 descriptors
    SYMBOL(t1)-SYMBOL(t2), ..., SYMBOL(t(n-1))-SYMBOL(tn). *)
Theorem getTradeRoute_descriptors (t : Trade) :
  getTradeRoute t = hops (definedSymbols (path (route t))) /\
  (Forall (fun tok => is_Some (symbol tok)) (path (route t)) ->
   length (getTradeRoute t) = length (path (route t)) - 1 /\
   forall i a b,
     path (route t) !! i = Some a ->
     path (route t) !! S i = Some b ->
     getTradeRoute t !! i = Some (template (symbol a) +:+ "-" +:+ template (symbol b))).
Proof.
  unfold getTradeRoute. rewrite getTradeRoute_loop_hops. simpl.
  split; [done|]. intros Hall.
  rewrite (definedSymbols_all _ Hall). split.
  - by rewrite hops_length, length_map.
  - intros i a b Ha Hb. apply hops_lookup; rewrite list_lookup_fmap.
    + by rewrite Ha.
    + by rewrite Hb.
Qed.

(** The route of a direct trade, and of a trade through a token without a
    symbol. *)
Lemma getTradeRoute_descriptors_witness :
  getTradeRoute Demo.direct = ["WETH-DAI"] /\
  length (getTradeRoute Demo.direct) = length (path (route Demo.direct)) - 1.
Proof.
  split; [reflexivity|].
  apply (getTradeRoute_descriptors Demo.direct).
  repeat constructor; simpl; eauto.
Defined.

(** C9, as stated, fails on a path with a token that has no symbol: three
    tokens give one descriptor, not two. *)
Lemma getTradeRoute_counterexample :
  length (path (route Demo.viaAnonymous)) = 3 /\
  getTradeRoute Demo.viaAnonymous = ["WETH-DAI"] /\
  length (getTradeRoute Demo.viaAnonymous) ≠ length (path (route Demo.viaAnonymous)) - 1.
Proof. repeat split. simpl. lia. Qed.

(** ** The instance registry *)

Section RegistryFacts.
Context (cfg : Config).

Lemma registry_ok_initial : registry_ok Statics_initial.
Proof. intros k l. unfold instances. simpl. by rewrite lookup_empty. Qed.

(** The three ways a call of [getInstance] goes: the key is registered; it
    is not, but names an inherited member; it is new. *)
Lemma getInstance_cases (chain_name network : string) (st : Statics) :
  match instances st !! (chain_name +:+ network) with
  | Some l =>
      getInstance cfg chain_name network st
      = (Instance l, {| _instances := Some (instances st); heap := heap st |})
  | None =>
      if bool_decide (chain_name +:+ network ∈ Object_prototype) then
        getInstance cfg chain_name network st
        = (Inherited (chain_name +:+ network),
           {| _instances := Some (instances st); heap := heap st |})
      else
        getInstance cfg chain_name network st
        = (Instance (length (heap st)),
           {| _instances :=
                Some (<[chain_name +:+ network := length (heap st)]> (instances st));
              heap := heap st ++ [Uniswap_new cfg chain_name network] |})
  end.
Proof.
  unfold getInstance, has_key, member. fold (instances st).
  destruct (instances st !! (chain_name +:+ network)) as [l|] eqn:Hk.
  - rewrite bool_decide_eq_true_2 by (apply elem_of_dom; eauto). simpl.
    by rewrite Hk.
  - rewrite (bool_decide_eq_false_2 (_ ∈ dom _)) by by apply not_elem_of_dom.
    case_bool_decide; simpl; [by rewrite Hk|]. by rewrite lookup_insert_eq.
Qed.

Lemma getInstance_clean (chain_name network : string) (st : Statics) :
  registry_clean st -> registry_clean (getInstance cfg chain_name network st).2.
Proof.
  intros Hclean k. pose proof (getInstance_cases chain_name network st) as Hcases.
  destruct (instances st !! (chain_name +:+ network)) as [l|] eqn:Hk;
    [|case_bool_decide as Hin]; rewrite Hcases; unfold instances; simpl;
    fold (instances st); try apply Hclean.
  intros [l Hl]. apply lookup_insert_Some in Hl as [[<- _]|[_ Hl]]; [done|].
  apply Hclean. eauto.
Qed.

Lemma getInstance_extends (chain_name network : string) (st : Statics) (k : string)
    (l : nat) :
  registry_ok st ->
  instances st !! k = Some l ->
  instances (getInstance cfg chain_name network st).2 !! k = Some l /\
  heap (getInstance cfg chain_name network st).2 !! l = heap st !! l.
Proof.
  intros Hok Hk. pose proof (getInstance_cases chain_name network st) as Hcases.
  destruct (instances st !! (chain_name +:+ network)) as [l'|] eqn:Hkey;
    [|case_bool_decide as Hin]; rewrite Hcases; unfold instances; simpl;
    fold (instances st); try done.
  split.
  - rewrite lookup_insert_ne; [done|]. intros <-. congruence.
  - apply lookup_app_l, (Hok k l Hk).
Qed.

Lemma getInstance_ok (chain_name network : string) (st : Statics) :
  registry_ok st -> registry_ok (getInstance cfg chain_name network st).2.
Proof.
  intros Hok k l. pose proof (getInstance_cases chain_name network st) as Hcases.
  destruct (instances st !! (chain_name +:+ network)) as [l'|] eqn:Hkey;
    [|case_bool_decide as Hin]; rewrite Hcases; unfold instances; simpl;
    fold (instances st); try apply Hok.
  rewrite length_app. simpl. intros Hk.
  apply lookup_insert_Some in Hk as [[<- <-]|[Hne Hk]].
  - split; [lia|]. intros k' Hk'.
    apply lookup_insert_Some in Hk' as [[? _]|[_ Hk']]; [done|].
    apply Hok in Hk' as [? _]. lia.
  - destruct (Hok k l Hk) as [Hlt Hinj]. split; [lia|]. intros k' Hk'.
    apply lookup_insert_Some in Hk' as [[_ Heq]|[_ Hk']]; [lia|by apply Hinj].
Qed.

Lemma getInstance_other_key (chain_name network key : string) (st : Statics) :
  key ≠ chain_name +:+ network ->
  instances (getInstance cfg chain_name network st).2 !! key = instances st !! key.
Proof.
  intros Hne. pose proof (getInstance_cases chain_name network st) as Hcases.
  destruct (instances st !! (chain_name +:+ network)) as [l'|] eqn:Hkey;
    [|case_bool_decide as Hin]; rewrite Hcases; unfold instances; simpl;
    fold (instances st); try done.
  by rewrite lookup_insert_ne.
Qed.

Lemma getInstances_snoc (calls : list (string * string)) (c : string * string)
    (st : Statics) :
  getInstances cfg (calls ++ [c]) st
  = (getInstance cfg c.1 c.2 (getInstances cfg calls st)).2.
Proof. unfold getInstances. by rewrite foldl_app. Qed.

Lemma getInstances_ok (calls : list (string * string)) : forall st,
  registry_ok st -> registry_ok (getInstances cfg calls st).
Proof.
  induction calls as [|c calls IH]; intros st Hok; [done|].
  apply IH. by apply getInstance_ok.
Qed.

Lemma getInstances_clean (calls : list (string * string)) : forall st,
  registry_clean st -> registry_clean (getInstances cfg calls st).
Proof.
  induction calls as [|c calls IH]; intros st Hok; [done|].
  apply IH. by apply getInstance_clean.
Qed.

Lemma registry_clean_initial : registry_clean Statics_initial.
Proof. intros k [l Hl]. unfold instances in Hl. simpl in Hl. by rewrite lookup_empty in Hl. Qed.


(** A call with a key that names no inherited member returns an instance,
    the one registered under the key afterwards. *)
Lemma getInstance_registered (chain_name network : string) (st : Statics) :
  chain_name +:+ network ∉ Object_prototype ->
  exists l,
    (getInstance cfg chain_name network st).1 = Instance l /\
    instances (getInstance cfg chain_name network st).2 !! (chain_name +:+ network)
    = Some l.
Proof.
  intros Hnot. pose proof (getInstance_cases chain_name network st) as Hcases.
  destruct (instances st !! (chain_name +:+ network)) as [l'|] eqn:Hkey.
  - rewrite Hcases. by exists l'.
  - rewrite bool_decide_eq_false_2 in Hcases by done. rewrite Hcases.
    eexists. split; [done|]. unfold instances. simpl. by rewrite lookup_insert_eq.
Qed.

(** A call with a key that names an inherited member returns that member
    and creates nothing. *)
Lemma getInstance_inherited (chain_name network : string) (st : Statics) :
  registry_clean st ->
  chain_name +:+ network ∈ Object_prototype ->
  (getInstance cfg chain_name network st).1 = Inherited (chain_name +:+ network) /\
  heap (getInstance cfg chain_name network st).2 = heap st /\
  instances (getInstance cfg chain_name network st).2 = instances st.
Proof.
  intros Hclean Hin. pose proof (getInstance_cases chain_name network st) as Hcases.
  destruct (instances st !! (chain_name +:+ network)) as [l'|] eqn:Hkey.
  - destruct (Hclean (chain_name +:+ network)); eauto.
  - rewrite bool_decide_eq_true_2 in Hcases by done. by rewrite Hcases.
Qed.
End RegistryFacts.




(** The pairs ("ab", "c") and ("a", "bc") share one instance, the one built
    for the first of them; ("ab", "c") and ("ab", "d") do not. *)
Example getInstance_shared :
  let first := getInstance Demo.cfg "ab" "c" Statics_initial in
  let second := getInstance Demo.cfg "a" "bc" first.2 in
  let third := getInstance Demo.cfg "ab" "d" second.2 in
  first.1 = second.1 /\
  heap second.2 = [Uniswap_new Demo.cfg "ab" "c"] /\
  third.1 ≠ first.1.
Proof. vm_compute. repeat split. discriminate. Qed.

(** ** Running methods *)

Lemma bind_run {A B} (m : M A) (k : A -> M B) (w : World) :
  (x ← m; k x) w =
  match m w with
  | (Ok a, w') => k a w'
  | (Err e, w') => (Err e, w')
  end.
Proof. reflexivity. Qed.

Lemma bind_ok {A B} (m : M A) (k : A -> M B) (w w' : World) (a : A) :
  m w = (Ok a, w') -> (x ← m; k x) w = k a w'.
Proof. intros H. by rewrite bind_run, H. Qed.

Lemma bind_err {A B} (m : M A) (k : A -> M B) (w w' : World) (e : error) :
  m w = (Err e, w') -> (x ← m; k x) w = (Err e, w').
Proof. intros H. by rewrite bind_run, H. Qed.

Ltac run :=
  unfold mbind, M_bind, mret, M_ret, await, call, throw, getThis, modifyThis, logger,
    emit;
  simpl.

(** ** Pool initialisation *)

Section PoolFacts.
Context (cfg : Config) (sdk : Sdk) (chain : Chain).

Lemma truthy_address (a : string) : a ≠ "" -> truthy (Some a) = true.
Proof. intros Ha. simpl. by destruct (String.eqb_spec a ""). Qed.

Lemma initDirectPool_entry (w : World) (entry : string) (r : EntryResult) :
  spec_entry cfg sdk chain (self w) entry r ->
  initDirectPool cfg sdk chain entry w = (Ok tt, after_entry r w).
Proof.
  intros Hspec. unfold initDirectPool. rewrite bind_run. unfold getThis.
  destruct Hspec as [Hlen|b q Hs Hb|b q bi Hs Hb Hq|b q bi qi bt qt Hs Hb Hq Hbt Hqt Hp
                    |b q bi qi bt qt a p Hs Hb Hq Hbt Hqt Hp Hz He Hf].
  - destruct (split dash entry) as [|x [|y [|z l]]]; try done.
  - by rewrite Hs, Hb.
  - by rewrite Hs, Hb, Hq.
  - rewrite Hs, Hb, Hq. unfold getPool. run. rewrite Hbt, Hqt, Hp.
    by rewrite String.eqb_refl.
  - rewrite Hs, Hb, Hq. unfold getPool. run. rewrite Hbt, Hqt, Hp.
    destruct (String.eqb_spec a (zeroAddress cfg)); [done|].
    rewrite truthy_address by done. by rewrite Hf.
Qed.

(** What an entry asks does not depend on the pools, the tokens or the
    readiness of the instance. *)
Lemma spec_entry_static (u u' : Uniswap) (entry : string) (r : EntryResult) :
  same_deployment u u' ->
  spec_entry cfg sdk chain u entry r -> spec_entry cfg sdk chain u' entry r.
Proof.
  intros (He & Hc & Hfa & Hfb & Hi & _) Hspec.
  destruct Hspec; unfold malformedWarning, noPoolWarning; rewrite <- ?Hc;
    [ by apply entry_malformed
    | eapply entry_unknown_base
    | eapply entry_unknown_quote
    | eapply entry_no_pool
    | eapply entry_pool ]; rewrite ?He, ?Hfa, ?Hfb, ?Hi; eauto.
Qed.

Lemma after_entry_same_deployment (r : EntryResult) (w : World) :
  same_deployment (self w) (self (after_entry r w)).
Proof. by destruct r. Qed.

Lemma after_entries_cons (r : EntryResult) (results : list EntryResult) (w : World) :
  after_entries results (after_entry r w) = after_entries (r :: results) w.
Proof.
  destruct r as [m|p]; unfold after_entries, after_entry, set_pools, appended, warnings;
    simpl; by rewrite <- ?app_assoc.
Qed.

Lemma forOf_entries (entries : list string) (results : list EntryResult) :
  forall w,
  Forall2 (spec_entry cfg sdk chain (self w)) entries results ->
  forOf entries (initDirectPool cfg sdk chain) w = (Ok tt, after_entries results w).
Proof.
  intros w H. remember (self w) as u eqn:Hu.
  assert (same_deployment u (self w)) as Hsame by by subst.
  clear Hu. revert w Hsame.
  induction H as [|entry r entries results Hr _ IH]; intros w Hsame.
  - unfold after_entries, set_pools, appended, warnings. run.
    by rewrite !app_nil_r.
  - cbn [forOf]. apply (spec_entry_static _ _ _ _ Hsame) in Hr.
    rewrite (bind_ok _ _ _ _ _ (initDirectPool_entry w entry r Hr)).
    rewrite IH; [by rewrite after_entries_cons|].
    destruct Hsame as (? & ? & ? & ? & ? & ?).
    destruct (after_entry_same_deployment r w) as (? & ? & ? & ? & ? & ?).
    repeat split; congruence.
Qed.

Lemma initDirectPools_run (w : World) (results : list EntryResult) :
  Forall2 (spec_entry cfg sdk chain (self w)) (_poolStrings (self w)) results ->
  initDirectPools cfg sdk chain w = (Ok tt, after_entries results w).
Proof.
  intros Hspec. unfold initDirectPools.
  rewrite (bind_ok _ _ w w (self w)) by reflexivity.
  by apply forOf_entries.
Qed.

(** The four skips and the append cover every entry that is answered. *)
Lemma spec_entry_covers (u : Uniswap) (entry : string) :
  entry_answered cfg sdk chain u entry -> exists r, spec_entry cfg sdk chain u entry r.
Proof.
  intros Hans.
  destruct (split dash entry) as [|b [|q [|x l]]] eqn:Hs;
    try (eexists; apply entry_malformed; rewrite Hs; simpl; lia).
  destruct (getTokenForSymbol (ethereum u) b) as [bi|] eqn:Hb;
    [|eexists; by eapply entry_unknown_base].
  destruct (getTokenForSymbol (ethereum u) q) as [qi|] eqn:Hq;
    [|eexists; by eapply entry_unknown_quote].
  destruct (Hans b q bi qi Hs Hb Hq) as (bt & qt & a & Hbt & Hqt & Hp & Hne & Hfetch).
  destruct (decide (a = zeroAddress cfg)) as [->|Hz].
  - eexists. by eapply entry_no_pool.
  - destruct (Hfetch Hz) as [p Hf]. eexists. by eapply entry_pool.
Qed.

(** C4, as amended. Pool initialisation handles each configured string on
    its own, provided that for each string with two resolved symbols the SDK
    builds the two tokens and the chain answers the factory call and the
    fetch. A string that does not split on [-] into two parts, an unresolved
    base or quote symbol, and a zero pair address each add their warning and
    nothing else; every other string appends its fetched pair; and the loop
    goes on to the next string in every case. So initialisation returns
    normally, and the pools afterwards are the pools before followed by the
    pairs of the valid strings, in order. *)
Theorem initDirectPools_entries (w : World) :
  Forall (entry_answered cfg sdk chain (self w)) (_poolStrings (self w)) ->
  exists results,
    Forall2 (spec_entry cfg sdk chain (self w)) (_poolStrings (self w)) results /\
    initDirectPools cfg sdk chain w = (Ok tt, after_entries results w) /\
    _pools (self (initDirectPools cfg sdk chain w).2)
    = _pools (self w) ++ appended results /\
    logs (initDirectPools cfg sdk chain w).2 = logs w ++ warnings results.
Proof.
  intros Hans.
  assert (exists results,
    Forall2 (spec_entry cfg sdk chain (self w)) (_poolStrings (self w)) results)
    as [results Hspec].
  { induction Hans as [|entry entries Hentry _ [results IH]]; [by exists []|].
    destruct (spec_entry_covers _ _ Hentry) as [r Hr].
    exists (r :: results). by constructor. }
  exists results. split; [done|].
  by rewrite (initDirectPools_run w results Hspec).
Qed.
End PoolFacts.

(** A malformed string before a valid one: initialisation succeeds with the
    one valid pool, and the one warning. *)
Lemma initDirectPools_entries_witness :
  (exists results,
     Forall2 (spec_entry Demo.cfg Demo.sdk Demo.chain (self Demo.world))
       ["ONLYONE"; "WETH-DAI"] results /\
     initDirectPools Demo.cfg Demo.sdk Demo.chain Demo.world
     = (Ok tt, after_entries results Demo.world) /\
     _pools (self (initDirectPools Demo.cfg Demo.sdk Demo.chain Demo.world).2)
     = [] ++ appended results /\
     logs (initDirectPools Demo.cfg Demo.sdk Demo.chain Demo.world).2
     = [] ++ warnings results) /\
  _pools (self (initDirectPools Demo.cfg Demo.sdk Demo.chain Demo.world).2)
  = [Demo.wethDai] /\
  logs (initDirectPools Demo.cfg Demo.sdk Demo.chain Demo.world).2 =
  [LogWarning ("The pool pair ONLYONE in your Uniswap V2 config for ethereum" +:+
               " is malformed. It should be a string in the format 'BASE-QUOTE'.")].
Proof.
  split; [|split; reflexivity].
  apply (initDirectPools_entries Demo.cfg Demo.sdk Demo.chain Demo.world).
  repeat constructor; intros base quote baseInfo quoteInfo Hsplit Hbase Hquote.
  - discriminate Hsplit.
  - injection Hsplit as <- <-. injection Hbase as <-. injection Hquote as <-.
    exists Demo.wethToken, Demo.daiToken, Demo.pairAddress.
    repeat split; [discriminate|]. intros _. by exists Demo.wethDai.
Defined.

(** C4, as stated, fails when a chain read is rejected: on the faulty
    deployment the third string, whose symbols resolve, meets a time-out of
    the factory call; initialisation throws it, and the fourth string, a
    valid one, is never appended. *)
Lemma initDirectPools_aborts_counterexample :
  _poolStrings (self Faulty.world) = ["ONLYONE"; "WETH-DAI"; "DAI-WETH"; "WETH-DAI"] /\
  (initDirectPools Faulty.cfg Faulty.sdk Faulty.chain Faulty.world).1
  = Err (Rejected "timeout") /\
  _pools (self (initDirectPools Faulty.cfg Faulty.sdk Faulty.chain Faulty.world).2)
  = [Demo.wethDai].
Proof. vm_compute. by repeat split. Qed.

(** ** Initialisation twice *)

Section InitFacts.
Context (cfg : Config) (sdk : Sdk) (chain : Chain).

Lemma after_entries_same_deployment (results : list EntryResult) (w : World) :
  same_deployment (self w) (self (after_entries results w)).
Proof. done. Qed.

Lemma after_entries_app (rs1 rs2 : list EntryResult) (w : World) :
  after_entries rs2 (after_entries rs1 w) = after_entries (rs1 ++ rs2) w.
Proof.
  unfold after_entries, set_pools, appended, warnings. simpl.
  by rewrite !omap_app, !app_assoc.
Qed.

Lemma after_entries_nil (w : World) : after_entries [] w = w.
Proof.
  unfold after_entries, set_pools, appended, warnings. simpl.
  by rewrite !app_nil_r.
Qed.

Lemma after_entries_agree (rs rs' : list EntryResult) (w w' : World) :
  after_entries rs w = after_entries rs' w ->
  after_entries rs w' = after_entries rs' w'.
Proof.
  unfold after_entries, set_pools. intros H.
  injection H as Hpools Hlogs.
  apply app_inv_head in Hpools, Hlogs. by rewrite Hpools, Hlogs.
Qed.

(** One entry, run from two worlds of the same deployment, ends the same way
    and changes both worlds alike: it appends the same pools and logs the
    same warnings. *)
Lemma initDirectPool_delta (entry : string) (w w' : World) :
  same_deployment (self w) (self w') ->
  exists (o : outcome unit) (rs : list EntryResult),
    initDirectPool cfg sdk chain entry w = (o, after_entries rs w) /\
    initDirectPool cfg sdk chain entry w' = (o, after_entries rs w').
Proof.
  intros (He & Hc & Hfa & Hfb & Hi & _).
  unfold initDirectPool, getPool. run. rewrite He, Hc, Hfa, Hfb, Hi.
  assert (forall (m : string) (v : World),
    (Ok tt, {| self := self v; logs := logs v ++ [LogWarning m];
               nonces := nonces v; trace := trace v |})
    = (Ok tt, after_entries [Skipped m] v)) as Hwarn.
  { intros m v. unfold after_entries, set_pools. simpl. by rewrite app_nil_r. }
  assert (forall (e : error) (v : World),
    (Err e, v) = (@Err unit e, after_entries [] v)) as Herr.
  { intros e v. by rewrite after_entries_nil. }
  assert (forall (p : Pair) (v : World),
    (Ok tt, {| self := set_pools (fun ps => ps ++ [p]) (self v); logs := logs v;
               nonces := nonces v; trace := trace v |})
    = (Ok tt, after_entries [Appended p] v)) as Hpool.
  { intros p v. unfold after_entries, set_pools. simpl. by rewrite app_nil_r. }
  destruct (split dash entry) as [|b [|q [|x l]]];
    try (eexists _, _; split; apply Hwarn).
  destruct (getTokenForSymbol (ethereum (self w)) b) as [bi|];
    [|eexists _, _; split; apply Hwarn].
  destruct (getTokenForSymbol (ethereum (self w)) q) as [qi|];
    [|eexists _, _; split; apply Hwarn].
  destruct (newToken sdk (chainId (self w)) bi) as [bt|e];
    [|eexists _, _; split; apply Herr].
  destruct (newToken sdk (chainId (self w)) qi) as [qt|e];
    [|eexists _, _; split; apply Herr].
  destruct (getPair chain _ _ _ _) as [a|e];
    [|eexists _, _; split; apply Herr].
  destruct (truthy _); [|eexists _, _; split; apply Hwarn].
  destruct (fetchPairData chain _ _) as [p|e].
  - eexists _, _; split; apply Hpool.
  - eexists _, _; split; apply Herr.
Qed.

Lemma forOf_delta (entries : list string) : forall (w w' : World),
  same_deployment (self w) (self w') ->
  exists (o : outcome unit) (rs : list EntryResult),
    forOf entries (initDirectPool cfg sdk chain) w = (o, after_entries rs w) /\
    forOf entries (initDirectPool cfg sdk chain) w' = (o, after_entries rs w').
Proof.
  induction entries as [|entry entries IH]; intros w w' Hsame.
  - exists (Ok tt), []. by rewrite !after_entries_nil.
  - destruct (initDirectPool_delta entry w w' Hsame) as (o & rs & Hw & Hw').
    cbn [forOf]. rewrite !bind_run, Hw, Hw'. destruct o as [[]|e].
    + destruct (IH (after_entries rs w) (after_entries rs w') Hsame)
        as (o' & rs' & Hrest & Hrest').
      exists o', (rs ++ rs'). by rewrite Hrest, Hrest', !after_entries_app.
    + by exists (Err e), rs.
Qed.

(** The token loop, when it runs through, enters a fixed set of tokens over
    whatever the token list held. *)
Lemma listTokens_union (cid : Z) (infos : list TokenInfo) :
  forall tl m,
  listTokens sdk cid infos tl = (Ok tt, m) ->
  exists entered : gmap string Token,
    forall tl', listTokens sdk cid infos tl' = (Ok tt, entered ∪ tl').
Proof.
  induction infos as [|info infos IH]; intros tl m Hrun; simpl in *.
  - exists ∅. intros tl'. by rewrite (left_id_L ∅ (∪)).
  - destruct (newToken sdk cid info) as [tok|e]; [|done].
    destruct (IH _ _ Hrun) as [entered Hentered].
    exists (entered ∪ {[ti_address info := tok]}). intros tl'.
    rewrite Hentered, <- (assoc_L (∪)). do 2 f_equal.
    by rewrite insert_union_singleton_l.
Qed.

(** Listing the same stored tokens again changes nothing. *)
Lemma listTokens_idemp (cid : Z) (infos : list TokenInfo) (tl m : gmap string Token) :
  listTokens sdk cid infos tl = (Ok tt, m) ->
  listTokens sdk cid infos m = (Ok tt, m).
Proof.
  intros Hrun. destruct (listTokens_union cid infos tl m Hrun) as [entered Hentered].
  rewrite Hentered in Hrun. injection Hrun as <-.
  by rewrite Hentered, (assoc_L (∪)), (idemp_L (∪)).
Qed.

Lemma listToken_run (info : TokenInfo) (w : World) :
  listToken sdk info w =
  match newToken sdk (chainId (self w)) info with
  | Ok tok =>
      (Ok tt,
       {| self := set_tokenList (fun tl => <[ti_address info := tok]> tl) (self w);
          logs := logs w; nonces := nonces w; trace := trace w |})
  | Err e => (Err e, w)
  end.
Proof. unfold listToken. run. by destruct (newToken _ _ _). Qed.

Lemma tokenLoop_run (infos : list TokenInfo) : forall w,
  forOf infos (listToken sdk) w
  = ((listTokens sdk (chainId (self w)) infos (tokenList (self w))).1,
     {| self := set_tokenList
                  (fun tl => (listTokens sdk (chainId (self w)) infos tl).2) (self w);
        logs := logs w; nonces := nonces w; trace := trace w |}).
Proof.
  induction infos as [|info infos IH]; intros w; [done|].
  cbn [forOf listTokens]. rewrite bind_run, listToken_run.
  destruct (newToken sdk (chainId (self w)) info) as [tok|e]; [|reflexivity].
  rewrite IH. reflexivity.
Qed.

Lemma init_run (w : World) :
  init cfg sdk chain w =
  if String.eqb (_chain (self w)) "ethereum" && negb (eth_ready (ethereum (self w)))
  then (Err (InitializationError (SERVICE_UNITIALIZED_ERROR_MESSAGE cfg "ETH")
                                 (SERVICE_UNITIALIZED_ERROR_CODE cfg)), w)
  else match (listTokens sdk (chainId (self w)) (storedTokenList (ethereum (self w)))
                (tokenList (self w))).1 with
       | Err e => (Err e, tokens_listed sdk w)
       | Ok _ =>
           match forOf (_poolStrings (self w)) (initDirectPool cfg sdk chain)
                   (tokens_listed sdk w) with
           | (Ok _, w') => (Ok tt, made_ready w')
           | (Err e, w') => (Err e, w')
           end
       end.
Proof.
  unfold init. rewrite bind_run. unfold getThis at 1.
  destruct (_ && _); [done|].
  rewrite bind_run, tokenLoop_run. fold (tokens_listed sdk w).
  destruct (listTokens _ _ _ _).1 as [[]|e]; [|done].
  rewrite bind_run. unfold initDirectPools. rewrite bind_run. unfold getThis at 1.
  change (_poolStrings (self (tokens_listed sdk w))) with (_poolStrings (self w)).
  by destruct (forOf _ _ _) as [[[]|e] w'].
Qed.

(** The ways [init] ends. When the Ethereum service of an "ethereum"
    instance is not ready it throws at once. Otherwise the stored tokens are
    listed, up to the first the SDK refuses; if all are listed, the
    configured strings are worked through, and the instance is made ready if
    that loop returned. *)
Lemma init_cases (w : World) :
  (String.eqb (_chain (self w)) "ethereum" && negb (eth_ready (ethereum (self w))) = true /\
   init cfg sdk chain w =
   (Err (InitializationError (SERVICE_UNITIALIZED_ERROR_MESSAGE cfg "ETH")
                             (SERVICE_UNITIALIZED_ERROR_CODE cfg)), w)) \/
  (String.eqb (_chain (self w)) "ethereum" && negb (eth_ready (ethereum (self w))) = false /\
   ((exists e,
       (listTokens sdk (chainId (self w)) (storedTokenList (ethereum (self w)))
          (tokenList (self w))).1 = Err e /\
       init cfg sdk chain w = (Err e, tokens_listed sdk w)) \/
    ((listTokens sdk (chainId (self w)) (storedTokenList (ethereum (self w)))
        (tokenList (self w))).1 = Ok tt /\
     exists rs,
       init cfg sdk chain w = (Ok tt, made_ready (after_entries rs (tokens_listed sdk w))) \/
       exists e, init cfg sdk chain w = (Err e, after_entries rs (tokens_listed sdk w))))).
Proof.
  rewrite init_run. destruct (_ && _); [by left|right]. split; [done|].
  destruct (listTokens _ _ _ _).1 as [[]|e]; [right|left; by exists e].
  split; [done|].
  destruct (forOf_delta (_poolStrings (self w)) (tokens_listed sdk w)
              (tokens_listed sdk w)) as (o & rs & -> & _); [done|].
  exists rs. destruct o as [[]|e]; [by left|right; by exists e].
Qed.

(** C6, as amended. [init] on an instance whose [init] has completed runs to
    completion again and leaves the token list and the readiness as they
    are, but it appends to [_pools] the pools the first run appended: the
    pools are unchanged only when the configuration yields no pool. (The
    Ethereum service, the SDK and the chain answer both runs alike.) *)
Theorem init_again (w w1 : World) :
  init cfg sdk chain w = (Ok tt, w1) ->
  exists (rs : list EntryResult) (w2 : World),
    _pools (self w1) = _pools (self w) ++ appended rs /\
    _ready (self w1) = true /\
    init cfg sdk chain w1 = (Ok tt, w2) /\
    tokenList (self w2) = tokenList (self w1) /\
    _ready (self w2) = true /\
    _pools (self w2) = _pools (self w1) ++ appended rs /\
    (appended rs = [] -> self w2 = self w1).
Proof.
  intros Hinit. rewrite init_run in Hinit.
  destruct (_ && _) eqn:Hguard; [done|].
  destruct (listTokens sdk (chainId (self w)) (storedTokenList (ethereum (self w)))
              (tokenList (self w))) as [[[]|e] m] eqn:Hlist; [|done]. simpl in Hinit.
  destruct (forOf_delta (_poolStrings (self w)) (tokens_listed sdk w) (tokens_listed sdk w))
    as (o & rs & Hfirst & _); [done|].
  rewrite Hfirst in Hinit. destruct o as [[]|]; [|done].
  injection Hinit as Hw1.
  destruct (forOf_delta (_poolStrings (self w)) (tokens_listed sdk w) w1)
    as (o & rs' & Hfirst' & Hsecond); [by rewrite <- Hw1|].
  rewrite Hfirst in Hfirst'.
  assert (o = Ok tt) as -> by congruence.
  assert (after_entries rs (tokens_listed sdk w) = after_entries rs' (tokens_listed sdk w))
    as Hrs by congruence.
  rewrite <- (after_entries_agree rs rs' _ w1 Hrs) in Hsecond. clear rs' Hrs Hfirst'.
  assert (tokenList (self w1) = m) as Htl.
  { rewrite <- Hw1. simpl. by rewrite Hlist. }
  assert (listTokens sdk (chainId (self w1)) (storedTokenList (ethereum (self w1)))
            (tokenList (self w1)) = (Ok tt, tokenList (self w1))) as Hagain.
  { rewrite Htl. replace (chainId (self w1)) with (chainId (self w)) by by rewrite <- Hw1.
    replace (ethereum (self w1)) with (ethereum (self w)) by by rewrite <- Hw1.
    by apply (listTokens_idemp _ _ (tokenList (self w))). }
  assert (tokens_listed sdk w1 = w1) as Hlisted.
  { unfold tokens_listed, set_tokenList. by rewrite Hagain. }
  exists rs, (made_ready (after_entries rs w1)).
  split; [by rewrite <- Hw1|]. split; [by rewrite <- Hw1|]. split.
  - rewrite init_run.
    replace (_chain (self w1)) with (_chain (self w)) by by rewrite <- Hw1.
    replace (ethereum (self w1)) with (ethereum (self w)) at 1 by by rewrite <- Hw1.
    rewrite Hguard, Hagain, Hlisted. simpl.
    replace (_poolStrings (self w1)) with (_poolStrings (self w)) by by rewrite <- Hw1.
    by rewrite Hsecond.
  - split; [done|]. split; [done|]. split; [done|].
    intros Hnone. unfold made_ready, after_entries, set_ready, set_pools. simpl.
    rewrite Hnone, app_nil_r. rewrite <- Hw1. reflexivity.
Qed.
End InitFacts.

(** The demo deployment, initialised twice. *)
Lemma init_again_witness :
  exists (rs : list EntryResult) (w2 : World),
    let w1 := (init Demo.cfg Demo.sdk Demo.chain Demo.world).2 in
    _pools (self w1) = _pools (self Demo.world) ++ appended rs /\
    _ready (self w1) = true /\
    init Demo.cfg Demo.sdk Demo.chain w1 = (Ok tt, w2) /\
    tokenList (self w2) = tokenList (self w1) /\
    _ready (self w2) = true /\
    _pools (self w2) = _pools (self w1) ++ appended rs /\
    (appended rs = [] -> self w2 = self w1).
Proof.
  apply (init_again Demo.cfg Demo.sdk Demo.chain Demo.world).
  vm_compute. reflexivity.
Defined.

(** C6, as stated, fails: the second [init] of the demo deployment leaves
    the pool of the one valid configured string in [_pools] twice. *)
Lemma init_not_idempotent :
  let first := init Demo.cfg Demo.sdk Demo.chain Demo.world in
  let second := init Demo.cfg Demo.sdk Demo.chain first.2 in
  first.1 = Ok tt /\ second.1 = Ok tt /\
  _ready (self first.2) = true /\
  _pools (self first.2) = [Demo.wethDai] /\
  _pools (self second.2) = [Demo.wethDai; Demo.wethDai] /\
  _pools (self second.2) ≠ _pools (self first.2).
Proof. vm_compute. repeat split. discriminate. Qed.

(** ** Quotes *)

Section QuoteFacts.
Context (cfg : Config) (sdk : Sdk) (chain : Chain).

Ltac quote_cases :=
  unfold estimateSellTrade, estimateBuyTrade, getSlippagePercentage; run;
  repeat match goal with
    | |- context [TokenAmount_new sdk ?t ?a] =>
        destruct (TokenAmount_new sdk t a) eqn:?; simpl
    | |- context [fetchPairData chain ?a ?b] =>
        destruct (fetchPairData chain a b) eqn:?; simpl
    | |- context [bestTradeExactIn sdk ?a ?b ?c ?d] =>
        destruct (bestTradeExactIn sdk a b c d) as [[|? ?]|?] eqn:?; simpl
    | |- context [bestTradeExactOut sdk ?a ?b ?c ?d] =>
        destruct (bestTradeExactOut sdk a b c d) as [[|? ?]|?] eqn:?; simpl
    | |- context [executionPrice_toFixed6 sdk ?t] =>
        destruct (executionPrice_toFixed6 sdk t) eqn:?; simpl
    | |- context [executionPrice_invert_toFixed6 sdk ?t] =>
        destruct (executionPrice_invert_toFixed6 sdk t) eqn:?; simpl
    | |- context [percentRegexp cfg ?s] =>
        destruct (percentRegexp cfg s) as [[? ?]|] eqn:?; simpl
    | |- context [Percent_new sdk ?a ?b] =>
        destruct (Percent_new sdk a b) eqn:?; simpl
    | |- context [minimumAmountOut sdk ?a ?b] =>
        destruct (minimumAmountOut sdk a b) eqn:?; simpl
    | |- context [maximumAmountIn sdk ?a ?b] =>
        destruct (maximumAmountIn sdk a b) eqn:?; simpl
    end.

(** A quote, whatever its end, only writes to the log. *)
Lemma estimateSellTrade_only_logs (baseToken quoteToken : Token) (amount : Z) (w : World) :
  exists entries,
    (estimateSellTrade cfg sdk chain baseToken quoteToken amount w).2 =
    {| self := self w; logs := logs w ++ entries; nonces := nonces w; trace := trace w |}.
Proof.
  quote_cases; try (eexists; by rewrite <- ?app_assoc).
  all: exists []; by rewrite app_nil_r.
Qed.

Lemma estimateBuyTrade_only_logs (quoteToken baseToken : Token) (amount : Z) (w : World) :
  exists entries,
    (estimateBuyTrade cfg sdk chain quoteToken baseToken amount w).2 =
    {| self := self w; logs := logs w ++ entries; nonces := nonces w; trace := trace w |}.
Proof.
  quote_cases; try (eexists; by rewrite <- ?app_assoc).
  all: exists []; by rewrite app_nil_r.
Qed.

(** A quote that succeeds returns the first trade the SDK ranks over the
    stored pools followed by the pair just fetched, with the bound the SDK
    computes for it from the configured slippage. *)
Lemma estimateSellTrade_returns (baseToken quoteToken : Token) (amount : Z) (w : World)
    (expected : ExpectedTrade) :
  (estimateSellTrade cfg sdk chain baseToken quoteToken amount w).1 = Ok expected ->
  exists amountIn pair rest price nd1 nd2 slippage,
    TokenAmount_new sdk baseToken amount = Ok amountIn /\
    fetchPairData chain baseToken quoteToken = Ok pair /\
    bestTradeExactIn sdk (_pools (self w) ++ [pair]) amountIn quoteToken
      (_maxHops (self w)) = Ok (trade expected :: rest) /\
    executionPrice_toFixed6 sdk (trade expected) = Ok price /\
    percentRegexp cfg (allowedSlippage cfg) = Some (nd1, nd2) /\
    Percent_new sdk nd1 nd2 = Ok slippage /\
    minimumAmountOut sdk (trade expected) slippage = Ok (expectedAmount expected).
Proof.
  match goal with |- _ -> ?G => set (Claim := G) end.
  quote_cases; intros [= <-]; subst Claim; simpl;
    eexists _, _, _, _, _, _, _; repeat split; eassumption.
Qed.

Lemma estimateBuyTrade_returns (quoteToken baseToken : Token) (amount : Z) (w : World)
    (expected : ExpectedTrade) :
  (estimateBuyTrade cfg sdk chain quoteToken baseToken amount w).1 = Ok expected ->
  exists amountOut pair rest price nd1 nd2 slippage,
    TokenAmount_new sdk baseToken amount = Ok amountOut /\
    fetchPairData chain quoteToken baseToken = Ok pair /\
    bestTradeExactOut sdk (_pools (self w) ++ [pair]) quoteToken amountOut
      (_maxHops (self w)) = Ok (trade expected :: rest) /\
    executionPrice_invert_toFixed6 sdk (trade expected) = Ok price /\
    percentRegexp cfg (allowedSlippage cfg) = Some (nd1, nd2) /\
    Percent_new sdk nd1 nd2 = Ok slippage /\
    maximumAmountIn sdk (trade expected) slippage = Ok (expectedAmount expected).
Proof.
  match goal with |- _ -> ?G => set (Claim := G) end.
  quote_cases; intros [= <-]; subst Claim; simpl;
    eexists _, _, _, _, _, _, _; repeat split; eassumption.
Qed.

(** C8. A quote, sell or buy, leaves the instance as it found it, the stored
    pools and the token list in particular, whether it returns a trade or
    fails; the fetched pair only enters the list handed to the SDK. *)
Theorem quote_preserves_instance (tokenIn tokenOut : Token) (amount : Z) (w : World) :
  let sell := estimateSellTrade cfg sdk chain tokenIn tokenOut amount w in
  let buy := estimateBuyTrade cfg sdk chain tokenIn tokenOut amount w in
  (_pools (self sell.2) = _pools (self w) /\
   tokenList (self sell.2) = tokenList (self w) /\
   self sell.2 = self w) /\
  (_pools (self buy.2) = _pools (self w) /\
   tokenList (self buy.2) = tokenList (self w) /\
   self buy.2 = self w).
Proof.
  intros sell buy.
  destruct (estimateSellTrade_only_logs tokenIn tokenOut amount w) as [ls Hsell].
  destruct (estimateBuyTrade_only_logs tokenIn tokenOut amount w) as [lb Hbuy].
  subst sell buy. rewrite Hsell, Hbuy. simpl. by repeat split.
Qed.

End QuoteFacts.



(** ** Execution *)

Section ExecuteFacts.
Context (cfg : Config) (sdk : Sdk) (chain : Chain).







End ExecuteFacts.



(** A rejected submission on the demo deployment: the wallet is at nonce 7,
    which the chain refuses; nothing is committed and the next call is
    handed 7 again. An accepted one at nonce 3 moves the wallet to 4. *)
Example executeTrade_rejected_then_reused :
  let at7 :=
    {| self := Demo.uniswap; logs := [];
       nonces := {[ wallet_address Demo.wallet := 7 ]}; trace := [] |} in
  let at3 :=
    {| self := Demo.uniswap; logs := [];
       nonces := {[ wallet_address Demo.wallet := 3 ]}; trace := [] |} in
  let run := executeTrade Demo.cfg Demo.sdk Demo.chain Demo.wallet Demo.direct
               2%float Demo.router 600%float (Abi "router") 150688%float
               None None None in
  (run at7).1 = Err (Rejected "nonce too low") /\
  nonces (run at7).2 !! wallet_address Demo.wallet = Some 7 /\
  (getNonce (wallet_address Demo.wallet) (run at7).2).1 = Ok 7 /\
  (run at3).1 = Ok {| hash := "0xfeed" |} /\
  nonces (run at3).2 !! wallet_address Demo.wallet = Some 4.
Proof. vm_compute. by repeat split. Qed.

(** ** The slippage bound *)




Section BoundFacts.
Context (cfg : Config) (sdk : Sdk) (chain : Chain).

End BoundFacts.



(** * Further properties of the connector *)

(** ** Pool strings *)




Section MorePoolFacts.
Context (cfg : Config) (sdk : Sdk) (chain : Chain).


(** Whatever its end, the loop over the configured strings only appends to
    the pools and adds warnings. *)
Lemma initDirectPools_effect (w : World) :
  exists (o : outcome unit) (rs : list EntryResult),
    initDirectPools cfg sdk chain w = (o, after_entries rs w).
Proof.
  destruct (forOf_delta cfg sdk chain (_poolStrings (self w)) w w) as (o & rs & H & _);
    [done|].
  exists o, rs. unfold initDirectPools. by rewrite bind_run.
Qed.

(** X3. [initDirectPools], whether it returns or throws, leaves the world it
    found with pools appended to [_pools] and warnings appended to the log,
    and nothing else changed: every other field of the instance, the nonce
    manager and the trace are as before. *)
Theorem initDirectPools_only_appends (w : World) :
  let after := (initDirectPools cfg sdk chain w).2 in
  exists (added : list Pair) (ws : list string),
    after =
    {| self :=
         {| ethereum := ethereum (self w); _chain := _chain (self w);
            _router := _router (self w); _factoryAddress := _factoryAddress (self w);
            _routerAbi := _routerAbi (self w); _factoryAbi := _factoryAbi (self w);
            _gasLimit := _gasLimit (self w); _ttl := _ttl (self w);
            chainId := chainId (self w); tokenList := tokenList (self w);
            _ready := _ready (self w); _poolStrings := _poolStrings (self w);
            _pools := _pools (self w) ++ added; _maxHops := _maxHops (self w) |};
       logs := logs w ++ map LogWarning ws;
       nonces := nonces w; trace := trace w |}.
Proof.
  intros after. subst after.
  destruct (initDirectPools_effect w) as (o & rs & ->). simpl.
  exists (appended rs),
    (omap (fun r => match r with Skipped m => Some m | Appended _ => None end) rs).
  unfold after_entries, set_pools. do 2 f_equal. unfold warnings.
  induction rs as [|[m|p] rs IH]; [done| |]; cbn; [by f_equal|done].
Qed.

Lemma forOf_app {A} (l1 l2 : list A) (body : A -> M unit) : forall w,
  forOf (l1 ++ l2) body w =
  match forOf l1 body w with
  | (Ok _, w') => forOf l2 body w'
  | (Err e, w') => (Err e, w')
  end.
Proof.
  induction l1 as [|x l1 IH]; intros w; [done|].
  cbn [forOf app]. rewrite !bind_run.
  destruct (body x w) as [[[]|e] w']; [apply IH|done].
Qed.

Lemma initDirectPool_rejected (entry : string) (e : error) (w : World) :
  entry_rejected cfg sdk chain (self w) entry e ->
  initDirectPool cfg sdk chain entry w = (Err e, w).
Proof.
  intros (b & q & bi & qi & Hs & Hb & Hq & Hread).
  unfold initDirectPool, getPool. run. rewrite Hs, Hb, Hq.
  destruct Hread as [Hbt|(bt & Hbt & [Hqt|(qt & Hqt & [Hp|(a & Hp & Hz & Hne & Hf)])])];
    rewrite Hbt; simpl; [done|..]; rewrite Hqt; simpl; [done|..];
    rewrite Hp; simpl; [done|].
  destruct (String.eqb_spec a (zeroAddress cfg)); [done|].
  rewrite truthy_address by done. by rewrite Hf.
Qed.

(** X4. [initDirectPools] stops at the first configured string with two
    resolved symbols for which the SDK refuses a token or the chain rejects
    a read, and throws that error: the strings before it have had their
    effect (pools appended, warnings logged), the strings after it are not
    looked at. *)
Theorem initDirectPools_stops_at_rejection (w : World)
    (done_ : list string) (results : list EntryResult)
    (bad : string) (e : error) (rest : list string) :
  _poolStrings (self w) = done_ ++ bad :: rest ->
  Forall2 (spec_entry cfg sdk chain (self w)) done_ results ->
  entry_rejected cfg sdk chain (self w) bad e ->
  initDirectPools cfg sdk chain w = (Err e, after_entries results w).
Proof.
  intros Hlist Hdone Hbad. unfold initDirectPools.
  rewrite (bind_ok _ _ w w (self w)) by reflexivity.
  rewrite Hlist, forOf_app, (forOf_entries cfg sdk chain done_ results w Hdone).
  cbn [forOf]. rewrite bind_run.
  by rewrite (initDirectPool_rejected bad e (after_entries results w)).
Qed.
End MorePoolFacts.

(** The faulty deployment: the third string meets the time-out, after one
    warning and one pool; the fourth string is never reached. *)
Lemma initDirectPools_stops_at_rejection_witness :
  initDirectPools Faulty.cfg Faulty.sdk Faulty.chain Faulty.world
  = (Err (Rejected "timeout"),
     after_entries
       [Skipped (malformedWarning Faulty.uniswap "ONLYONE"); Appended Demo.wethDai]
       Faulty.world) /\
  _pools (self (initDirectPools Faulty.cfg Faulty.sdk Faulty.chain Faulty.world).2)
  = [Demo.wethDai].
Proof.
  split; [|reflexivity].
  apply (initDirectPools_stops_at_rejection Faulty.cfg Faulty.sdk Faulty.chain
           Faulty.world ["ONLYONE"; "WETH-DAI"] _ "DAI-WETH" _ ["WETH-DAI"]).
  - reflexivity.
  - constructor; [|constructor; [|constructor]].
    + apply (entry_malformed Faulty.cfg Faulty.sdk Faulty.chain (self Faulty.world)
               "ONLYONE").
      simpl. lia.
    + apply (entry_pool Faulty.cfg Faulty.sdk Faulty.chain (self Faulty.world)
               "WETH-DAI" "WETH" "DAI" Demo.weth Demo.dai Demo.wethToken Demo.daiToken
               Demo.pairAddress Demo.wethDai);
        first [reflexivity | discriminate].
  - exists "DAI", "WETH", Demo.dai, Demo.weth. repeat split.
    right. exists Demo.daiToken. split; [reflexivity|].
    right. exists Demo.wethToken. split; [reflexivity|].
    by left.
Defined.

(** ** Initialisation and the token list *)

Section MoreInitFacts.
Context (cfg : Config) (sdk : Sdk) (chain : Chain).

(** X1. After [init] has returned, [ready()] is true; if [init] throws,
    [ready()] answers what it answered before. If it throws because the Ethereum
    service is not ready, nothing has changed at all; if it throws later,
    the pools it had appended stay. *)
Theorem init_ready_on_return (w : World) :
  let r := init cfg sdk chain w in
  (r.1 = Ok tt -> (ready r.2).1 = Ok true) /\
  (forall e, r.1 = Err e -> (ready r.2).1 = (ready w).1) /\
  (String.eqb (_chain (self w)) "ethereum" = true ->
   eth_ready (ethereum (self w)) = false ->
   r = (Err (InitializationError (SERVICE_UNITIALIZED_ERROR_MESSAGE cfg "ETH")
                                 (SERVICE_UNITIALIZED_ERROR_CODE cfg)), w)) /\
  _pools (self w) `prefix_of` _pools (self r.2).
Proof.
  intros r. subst r.
  destruct (init_cases cfg sdk chain w)
    as [[Hguard ->]|[Hguard [(e & _ & ->)|[_ [rs [->|[e ->]]]]]]]; simpl;
    repeat split; try done; try (by eexists);
    try (by exists []; rewrite app_nil_r).
  all: intros Hc Hr; by rewrite Hc, Hr in Hguard.
Qed.


End MoreInitFacts.


(** ** Quotes, completely *)

Section MoreQuoteFacts.
Context (cfg : Config) (sdk : Sdk) (chain : Chain).

(** X7. [estimateSellTrade] returns exactly when the SDK accepts the amount,
    the pair is fetched, the SDK ranks at least one trade over the stored
    pools followed by that pair under the hop bound of the instance, prints
    its price, the slippage setting is well formed and the SDK computes the
    minimum amount out; it returns the first of those trades with that
    amount. *)
Theorem estimateSellTrade_returns_iff (baseToken quoteToken : Token) (amount : Z)
    (w : World) (expected : ExpectedTrade) :
  (estimateSellTrade cfg sdk chain baseToken quoteToken amount w).1 = Ok expected <->
  exists amountIn pair rest price nd1 nd2 slippage,
    TokenAmount_new sdk baseToken amount = Ok amountIn /\
    fetchPairData chain baseToken quoteToken = Ok pair /\
    bestTradeExactIn sdk (_pools (self w) ++ [pair]) amountIn quoteToken
      (_maxHops (self w)) = Ok (trade expected :: rest) /\
    executionPrice_toFixed6 sdk (trade expected) = Ok price /\
    percentRegexp cfg (allowedSlippage cfg) = Some (nd1, nd2) /\
    Percent_new sdk nd1 nd2 = Ok slippage /\
    minimumAmountOut sdk (trade expected) slippage = Ok (expectedAmount expected).
Proof.
  split; [apply estimateSellTrade_returns|].
  intros (amountIn & pair & rest & price & nd1 & nd2 & slippage &
          Hamount & Hfetch & Hbest & Hprice & Hpercent & Hslippage & Hbound).
  unfold estimateSellTrade, getSlippagePercentage. run.
  rewrite Hamount. simpl. rewrite Hfetch. simpl. rewrite Hbest. simpl.
  rewrite Hprice. simpl. rewrite Hpercent. simpl. rewrite Hslippage. simpl.
  rewrite Hbound. simpl. by destruct expected.
Qed.

(** X8. [estimateBuyTrade] returns exactly when the SDK accepts the amount,
    the pair is fetched, the SDK ranks at least one exact-output trade over
    the stored pools followed by that pair, prints its inverted price, the
    slippage setting is well formed and the SDK computes the maximum amount
    in; it returns the first of those trades with that amount. *)
Theorem estimateBuyTrade_returns_iff (quoteToken baseToken : Token) (amount : Z)
    (w : World) (expected : ExpectedTrade) :
  (estimateBuyTrade cfg sdk chain quoteToken baseToken amount w).1 = Ok expected <->
  exists amountOut pair rest price nd1 nd2 slippage,
    TokenAmount_new sdk baseToken amount = Ok amountOut /\
    fetchPairData chain quoteToken baseToken = Ok pair /\
    bestTradeExactOut sdk (_pools (self w) ++ [pair]) quoteToken amountOut
      (_maxHops (self w)) = Ok (trade expected :: rest) /\
    executionPrice_invert_toFixed6 sdk (trade expected) = Ok price /\
    percentRegexp cfg (allowedSlippage cfg) = Some (nd1, nd2) /\
    Percent_new sdk nd1 nd2 = Ok slippage /\
    maximumAmountIn sdk (trade expected) slippage = Ok (expectedAmount expected).
Proof.
  split; [apply estimateBuyTrade_returns|].
  intros (amountOut & pair & rest & price & nd1 & nd2 & slippage &
          Hamount & Hfetch & Hbest & Hprice & Hpercent & Hslippage & Hbound).
  unfold estimateBuyTrade, getSlippagePercentage. run.
  rewrite Hamount. simpl. rewrite Hfetch. simpl. rewrite Hbest. simpl.
  rewrite Hprice. simpl. rewrite Hpercent. simpl. rewrite Hslippage. simpl.
  rewrite Hbound. simpl. by destruct expected.
Qed.

(** X9. The order of the failures of a quote, sell or buy. An amount the
    SDK refuses is thrown before anything is logged or fetched. A rejected
    fetch is thrown as it is, before the SDK is asked for trades; an error
    of the SDK's search is thrown as it is. The slippage setting is read
    only once a trade is found and its price printed: a malformed setting
    turns a found trade into a configuration [Error], and goes unnoticed
    when there is no trade. *)
Theorem quote_failure_order (tokenIn tokenOut : Token) (amount : Z) (w : World) :
  let sell := estimateSellTrade cfg sdk chain tokenIn tokenOut amount w in
  let buy := estimateBuyTrade cfg sdk chain tokenIn tokenOut amount w in
  match TokenAmount_new sdk tokenIn amount with
  | Err e => sell = (Err e, w)
  | Ok amountIn =>
      match fetchPairData chain tokenIn tokenOut with
      | Err e => sell.1 = Err e
      | Ok fetched =>
          match bestTradeExactIn sdk (_pools (self w) ++ [fetched]) amountIn tokenOut
                  (_maxHops (self w)) with
          | Err e => sell.1 = Err e
          | Ok [] => exists m, sell.1 = Err (UniswapishPriceError m)
          | Ok (best :: _) =>
              match executionPrice_toFixed6 sdk best with
              | Err e => sell.1 = Err e
              | Ok _ =>
                  percentRegexp cfg (allowedSlippage cfg) = None ->
                  sell.1 = Err (Error
                    "Encountered a malformed percent string in the config for ALLOWED_SLIPPAGE.")
              end
          end
      end
  end /\
  match TokenAmount_new sdk tokenOut amount with
  | Err e => buy = (Err e, w)
  | Ok amountOut =>
      match fetchPairData chain tokenIn tokenOut with
      | Err e => buy.1 = Err e
      | Ok fetched =>
          match bestTradeExactOut sdk (_pools (self w) ++ [fetched]) tokenIn amountOut
                  (_maxHops (self w)) with
          | Err e => buy.1 = Err e
          | Ok [] => exists m, buy.1 = Err (UniswapishPriceError m)
          | Ok (best :: _) =>
              match executionPrice_invert_toFixed6 sdk best with
              | Err e => buy.1 = Err e
              | Ok _ =>
                  percentRegexp cfg (allowedSlippage cfg) = None ->
                  buy.1 = Err (Error
                    "Encountered a malformed percent string in the config for ALLOWED_SLIPPAGE.")
              end
          end
      end
  end.
Proof.
  intros sell buy. subst sell buy. split.
  - unfold estimateSellTrade, getSlippagePercentage. run.
    destruct (TokenAmount_new sdk tokenIn amount) as [amountIn|e]; simpl; [|done].
    destruct (fetchPairData chain tokenIn tokenOut) as [fetched|e]; simpl; [|done].
    destruct (bestTradeExactIn sdk _ _ _ _) as [[|best rest]|e]; simpl;
      [by eexists| |done].
    destruct (executionPrice_toFixed6 sdk best) as [price|e]; simpl; [|done].
    by intros ->.
  - unfold estimateBuyTrade, getSlippagePercentage. run.
    destruct (TokenAmount_new sdk tokenOut amount) as [amountOut|e]; simpl; [|done].
    destruct (fetchPairData chain tokenIn tokenOut) as [fetched|e]; simpl; [|done].
    destruct (bestTradeExactOut sdk _ _ _ _) as [[|best rest]|e]; simpl;
      [by eexists| |done].
    destruct (executionPrice_invert_toFixed6 sdk best) as [price|e]; simpl; [|done].
    by intros ->.
Qed.
End MoreQuoteFacts.

(** The demo deployment quotes a sale of 20000 units of WETH; a negative
    amount is refused before anything is logged; the faulty deployment finds
    the trade and then trips over its slippage setting, which goes unnoticed
    when there is nothing to sell. *)
Example quote_failure_order_examples :
  (estimateSellTrade Demo.cfg Demo.sdk Demo.chain Demo.wethToken Demo.daiToken 20000
     Demo.world).1
  = Ok {| trade := Demo.direct;
          expectedAmount := {| token := Demo.daiToken; raw := 19356 |} |} /\
  estimateSellTrade Demo.cfg Demo.sdk Demo.chain Demo.wethToken Demo.daiToken (-1)
    Demo.world
  = (Err (Error "Invariant failed: -1 is not a uint256."), Demo.world) /\
  (estimateSellTrade Faulty.cfg Faulty.sdk Faulty.chain Demo.wethToken Demo.daiToken
     20000 Faulty.world).1
  = Err (Error "Encountered a malformed percent string in the config for ALLOWED_SLIPPAGE.") /\
  (estimateSellTrade Faulty.cfg Faulty.sdk Faulty.chain Demo.wethToken Demo.daiToken
     0 Faulty.world).1
  = Err (UniswapishPriceError
      "priceSwapIn: no trade pair found for [object Object] to [object Object].").
Proof. vm_compute. by repeat split. Qed.

(** ** Execution, step by step *)

Section MoreExecuteFacts.
Context (cfg : Config) (sdk : Sdk) (chain : Chain).

Ltac execute_run :=
  unfold executeTrade, getSlippagePercentage, submit, getNonce, commitNonce, nonceRequest;
  run;
  repeat match goal with
    | |- context [Percent_new sdk ?a ?b] =>
        destruct (Percent_new sdk a b) eqn:?; simpl
    | |- context [swapCallParameters sdk ?a ?b] =>
        destruct (swapCallParameters sdk a b) eqn:?; simpl
    | |- context [match ?n with Some _ => _ | None => _ end] =>
        is_var n; destruct n; simpl
    | |- context [bool_decide ?P] => destruct (bool_decide_reflect P); simpl
    | |- context [sendTransaction chain ?c] =>
        let H := fresh "Hsend" in destruct (sendTransaction chain c) eqn:H; simpl
    end;
  rewrite <- ?app_assoc; simpl.

(** X10. With a malformed slippage setting [executeTrade] throws the
    configuration [Error] before anything else happens: the nonce manager is
    not asked, nothing is submitted or committed, nothing is logged. *)
Theorem executeTrade_malformed_slippage (wallet : Wallet) (trade_ : Trade)
    (gasPrice_ : float) (uniswapRouter : string) (ttl : float) (abi : ContractInterface)
    (gasLimit_ : float) (nonce : option nat) (maxFee maxPriorityFee : option Z)
    (w : World) :
  percentRegexp cfg (allowedSlippage cfg) = None ->
  executeTrade cfg sdk chain wallet trade_ gasPrice_ uniswapRouter ttl abi gasLimit_
    nonce maxFee maxPriorityFee w
  = (Err (Error "Encountered a malformed percent string in the config for ALLOWED_SLIPPAGE."),
     w).
Proof.
  intros Hpercent. unfold executeTrade, getSlippagePercentage.
  rewrite Hpercent. reflexivity.
Qed.


(** X12. The call [executeTrade] submits goes to the router address, with
    the ABI and the wallet it was given, not to the router of the instance.
    Method, arguments and value are those the SDK builds for the
    trade with the time to live given, the configured slippage and the
    wallet's own address as recipient; the gas limit is the one given,
    printed without decimals. *)
Theorem executeTrade_call (wallet : Wallet) (trade_ : Trade) (gasPrice_ : float)
    (uniswapRouter : string) (ttl : float) (abi : ContractInterface) (gasLimit_ : float)
    (nonce : option nat) (maxFee maxPriorityFee : option Z) (w : World) :
  let r := executeTrade cfg sdk chain wallet trade_ gasPrice_ uniswapRouter ttl abi
             gasLimit_ nonce maxFee maxPriorityFee w in
  exists evs,
    trace r.2 = trace w ++ evs /\
    forall c, ESubmit c ∈ evs ->
      exists nd1 nd2 slippage result,
        percentRegexp cfg (allowedSlippage cfg) = Some (nd1, nd2) /\
        Percent_new sdk nd1 nd2 = Ok slippage /\
        swapCallParameters sdk trade_
          {| opt_ttl := ttl; opt_recipient := wallet_address wallet;
             opt_allowedSlippage := slippage |} = Ok result /\
        call_target c = uniswapRouter /\
        call_abi c = abi /\
        call_signer c = wallet /\
        call_method c = methodName result /\
        call_args c = args result /\
        ov_value (call_overrides c) = Some (value result) /\
        gasLimit (call_overrides c) = Some (toFixed0 sdk gasLimit_).
Proof.
  intros r. subst r. unfold executeTrade, getSlippagePercentage.
  destruct (percentRegexp cfg (allowedSlippage cfg)) as [[nd1 nd2]|].
  - execute_run;
      try (exists []; split; [by rewrite app_nil_r|];
           intros c Hc; by apply elem_of_nil in Hc);
      (eexists; split; [reflexivity|]); intros c Hc;
      exists nd1, nd2; eexists _, _;
      (split; [done|]); (split; [eassumption|]); (split; [eassumption|]);
      repeat match goal with
        | H : _ ∈ [] |- _ => by apply elem_of_nil in H
        | H : _ ∈ _ :: _ |- _ => apply elem_of_cons in H as [H|H]; simplify_eq/=
        end; done.
  - exists []. split; [by rewrite app_nil_r|]. intros c Hc.
    by apply elem_of_nil in Hc.
Qed.

(** X13. [executeTrade] never touches the instance. It logs one entry, the
    transaction, when the chain accepts the submission, and nothing when it
    throws. *)
Theorem executeTrade_instance_and_log (wallet : Wallet) (trade_ : Trade)
    (gasPrice_ : float) (uniswapRouter : string) (ttl : float) (abi : ContractInterface)
    (gasLimit_ : float) (nonce : option nat) (maxFee maxPriorityFee : option Z)
    (w : World) :
  let r := executeTrade cfg sdk chain wallet trade_ gasPrice_ uniswapRouter ttl abi
             gasLimit_ nonce maxFee maxPriorityFee w in
  self r.2 = self w /\
  (forall tx, r.1 = Ok tx -> logs r.2 = logs w ++ [LogInfoTx tx]) /\
  (forall e, r.1 = Err e -> logs r.2 = logs w).
Proof.
  intros r. subst r. unfold executeTrade, getSlippagePercentage.
  destruct (percentRegexp cfg (allowedSlippage cfg)) as [[nd1 nd2]|].
  - execute_run; repeat split; intros; by simplify_eq.
  - repeat split; intros; by simplify_eq.
Qed.
End MoreExecuteFacts.

(** The faulty deployment never reaches the chain. *)
Lemma executeTrade_malformed_slippage_witness :
  executeTrade Faulty.cfg Faulty.sdk Faulty.chain Demo.wallet Demo.direct
    2%float Demo.router 600%float (Abi "router") 150688%float None None None Faulty.world
  = (Err (Error "Encountered a malformed percent string in the config for ALLOWED_SLIPPAGE."),
     Faulty.world).
Proof.
  apply (executeTrade_malformed_slippage Faulty.cfg Faulty.sdk Faulty.chain).
  reflexivity.
Defined.


(** ** The registry, object by object *)

Section MoreRegistryFacts.
Context (cfg : Config).

Lemma firstCall_snoc (key : string) (calls : list (string * string)) (c : string * string) :
  firstCall key (calls ++ [c]) =
  match firstCall key calls with
  | Some c0 => Some c0
  | None => if decide (c.1 +:+ c.2 = key) then Some c else None
  end.
Proof.
  induction calls as [|c' calls IH]; simpl; [done|].
  by destruct (decide (c'.1 +:+ c'.2 = key)).
Qed.

(** After a list of calls, a key that names no inherited member is
    registered exactly when one of the calls used it, and its object is the
    one the constructor built for the first such call. *)
Lemma getInstances_first (calls : list (string * string)) (key : string) :
  key ∉ Object_prototype ->
  let st := getInstances cfg calls Statics_initial in
  match firstCall key calls with
  | Some c0 =>
      exists l, instances st !! key = Some l /\
                heap st !! l = Some (Uniswap_new cfg c0.1 c0.2)
  | None => instances st !! key = None
  end.
Proof.
  intros Hnot.
  induction calls as [|c calls IH] using rev_ind; [done|].
  cbv zeta in *. rewrite firstCall_snoc, getInstances_snoc.
  set (st := getInstances cfg calls Statics_initial) in *.
  assert (registry_ok st) as Hok by apply getInstances_ok, registry_ok_initial.
  destruct (firstCall key calls) as [c0|].
  - destruct IH as (l & Hl & Hheap). exists l.
    destruct (getInstance_extends cfg c.1 c.2 st key l Hok Hl) as [? Hsame].
    split; [done|]. by rewrite Hsame.
  - destruct (decide (c.1 +:+ c.2 = key)) as [<-|Hne].
    + pose proof (getInstance_cases cfg c.1 c.2 st) as Hcases. rewrite IH in Hcases.
      rewrite bool_decide_eq_false_2 in Hcases by done. rewrite Hcases.
      eexists. unfold instances. simpl. split; [by rewrite lookup_insert_eq|].
      by rewrite lookup_app_r, Nat.sub_diag.
    + by rewrite getInstance_other_key.
Qed.

(** X14. When [chain + network] names no member that the registry object
    inherits, the object [getInstance(chain, network)] returns is the one
    the constructor built for the first call whose [chain + network] is the
    same string, with the arguments of that call: for a key not used before,
    of this call; otherwise of an earlier one, whose chain and network may
    differ from those asked for now. When [chain + network] names an
    inherited member, the call returns that member and builds nothing. *)
Theorem getInstance_built_by_first_call (calls : list (string * string))
    (chain_name network : string) :
  let st := getInstances cfg calls Statics_initial in
  let r := getInstance cfg chain_name network st in
  let c0 := default (chain_name, network) (firstCall (chain_name +:+ network) calls) in
  (chain_name +:+ network ∉ Object_prototype ->
   exists l, r.1 = Instance l /\ heap r.2 !! l = Some (Uniswap_new cfg c0.1 c0.2)) /\
  (chain_name +:+ network ∈ Object_prototype ->
   r.1 = Inherited (chain_name +:+ network) /\ heap r.2 = heap st).
Proof.
  intros st r c0. subst st r c0. split.
  - intros Hnot.
    pose proof (getInstances_first (calls ++ [(chain_name, network)])
                  (chain_name +:+ network) Hnot) as Hfirst.
    cbv zeta in Hfirst. rewrite firstCall_snoc, getInstances_snoc in Hfirst.
    cbn [fst snd] in Hfirst. rewrite decide_True in Hfirst by done.
    destruct (getInstance_registered cfg chain_name network
                (getInstances cfg calls Statics_initial) Hnot) as (l & Hl & Hkey).
    exists l. split; [done|].
    destruct (firstCall (chain_name +:+ network) calls) as [c0|];
      destruct Hfirst as (l' & Hl' & Hheap); by simplify_eq.
  - intros Hin.
    destruct (getInstance_inherited cfg chain_name network
                (getInstances cfg calls Statics_initial)) as (? & ? & _);
      [apply getInstances_clean, registry_clean_initial|done|done].
Qed.

Lemma instances_Some (registry : gmap string nat) (objects : list Uniswap) :
  instances {| _instances := Some registry; heap := objects |} = registry.
Proof. reflexivity. Qed.

Lemma storedKeys_snoc (calls : list (string * string)) (c : string * string) :
  storedKeys (calls ++ [c]) =
  storedKeys calls ∪ (if decide (callKey c ∈ Object_prototype) then ∅ else {[callKey c]}).
Proof.
  unfold storedKeys. rewrite map_app, filter_app, list_to_set_app_L. f_equal.
  cbn [map]. rewrite filter_cons, filter_nil.
  destruct (decide (callKey c ∈ Object_prototype)) as [Hin|Hnot].
  - by rewrite decide_False by (intros Hn; by apply Hn).
  - rewrite decide_True by done. simpl. by rewrite (right_id_L ∅ (∪)).
Qed.

(** X15. However [getInstance] is called, the registry holds exactly the
    keys [chain + network] of the calls made that name no inherited member,
    and the class has created exactly one object for each of them. *)
Theorem getInstance_one_object_per_key (calls : list (string * string)) :
  let st := getInstances cfg calls Statics_initial in
  dom (instances st) = storedKeys calls /\
  length (heap st) = size (storedKeys calls).
Proof.
  cbv zeta.
  assert (dom (instances (getInstances cfg calls Statics_initial)) = storedKeys calls /\
          length (heap (getInstances cfg calls Statics_initial))
          = size (instances (getInstances cfg calls Statics_initial))) as [Hdom Hlen].
  { induction calls as [|c calls [IHdom IHlen]] using rev_ind.
    - unfold instances, storedKeys. simpl. split; [by rewrite dom_empty_L|].
      by rewrite map_size_empty.
    - rewrite getInstances_snoc, storedKeys_snoc.
      set (st := getInstances cfg calls Statics_initial) in *.
      assert (registry_clean st) as Hclean
        by apply getInstances_clean, registry_clean_initial.
      pose proof (getInstance_cases cfg c.1 c.2 st) as Hcases.
      fold (callKey c) in Hcases.
      destruct (instances st !! callKey c) as [l|] eqn:Hkey.
      + rewrite Hcases. cbn [snd]. rewrite !instances_Some.
        split; [|done]. rewrite <- IHdom.
        rewrite decide_False by (apply Hclean; eauto).
        symmetry. rewrite (comm_L (∪)). apply subseteq_union_1_L.
        apply singleton_subseteq_l, elem_of_dom. eauto.
      + destruct (decide (callKey c ∈ Object_prototype)) as [Hin|Hnot].
        * rewrite bool_decide_eq_true_2 in Hcases by done. rewrite Hcases.
          cbn [snd]. rewrite !instances_Some.
          split; [|done]. by rewrite <- IHdom, (right_id_L ∅ (∪)).
        * rewrite bool_decide_eq_false_2 in Hcases by done. rewrite Hcases.
          cbn [snd heap]. rewrite !instances_Some. split.
          -- by rewrite dom_insert_L, <- IHdom, (comm_L (∪)).
          -- rewrite length_app, map_size_insert_None by done. simpl. lia. }
  split; [done|]. by rewrite Hlen, <- Hdom, size_dom.
Qed.
End MoreRegistryFacts.

(** The second call asks for chain "a" on network "bc" and is handed the
    instance of chain "ab" on network "c"; the call for "to" and "String"
    in between has built nothing. *)
Example getInstance_built_by_first_call_example :
  let r := getInstance Demo.cfg "a" "bc"
             (getInstances Demo.cfg [("ab", "c"); ("to", "String")] Statics_initial) in
  r.1 = Instance 0 /\
  heap r.2 = [Uniswap_new Demo.cfg "ab" "c"] /\
  storedKeys [("ab", "c"); ("to", "String"); ("a", "bc")] = {[ "abc" ]}.
Proof. split; [|split]; [reflexivity..|]. by vm_compute. Qed.

(** ** Routes, bounded *)

Lemma definedSymbols_length (tokens : list Token) :
  length (definedSymbols tokens) <= length tokens.
Proof.
  unfold definedSymbols. induction tokens as [|tok tokens IH]; [done|].
  cbn [omap list_omap]. destruct (symbol tok); cbn [length]; lia.
Qed.

(** X16. [getTradeRoute] returns one descriptor fewer than the route path
    has tokens with a symbol, so never more descriptors than the route has
    hops, and none for a path on which fewer than two tokens carry a
    symbol. *)
Theorem getTradeRoute_length (t : Trade) :
  length (getTradeRoute t) = length (definedSymbols (path (route t))) - 1 /\
  length (getTradeRoute t) <= length (path (route t)) - 1 /\
  (length (definedSymbols (path (route t))) < 2 -> getTradeRoute t = []).
Proof.
  unfold getTradeRoute. rewrite getTradeRoute_loop_hops. simpl.
  pose proof (definedSymbols_length (path (route t))) as Hle.
  rewrite hops_length. split; [done|]. split; [lia|].
  intros Hfew. destruct (definedSymbols (path (route t))) as [|a [|b l]]; simpl in *;
    [done|done|lia].
Qed.
